(** * FaceRec: a shallow embedding of the repository's scripts

    The repository holds independent Python scripts:
    - [LGtest.py]: a LangGraph workflow over a [MovieState] dictionary;
    - [FaceRecog.py]: [SelfieAuth], a face comparison around [face_recognition];
    - [FRT2.py], [FRT3.py]: two storage-triggered thumbnail functions.

    Each script is embedded in a module of its name.  Module [Py] holds the
    pieces of the Python runtime the scripts use ([str] methods, [os.path],
    [int] of a true division). *)

From Stdlib Require Import Bool Arith List Ascii String ZArith QArith Lia.
From Stdlib Require Import Numbers.DecimalString.
Import ListNotations.
Local Open Scope string_scope.
Local Open Scope list_scope.

(* ===================================================================== *)
(** * Python runtime                                                      *)
(* ===================================================================== *)

Module Py.

(** ** Exceptions and results

    [exn] stands for instances of [Exception]; a computation either returns a
    value or raises. *)

Inductive exn : Type :=
| KeyError (key : string)
| IndexError (msg : string)
| AttributeError (msg : string)
| OtherError (cls msg : string).

Inductive result (A : Type) : Type :=
| Ok (a : A)
| Raise (e : exn).
Arguments Ok {A} a.
Arguments Raise {A} e.

Definition bind {A B} (r : result A) (k : A -> result B) : result B :=
  match r with
  | Ok a => k a
  | Raise e => Raise e
  end.

(** ** [str] *)

Definition sep : ascii := "/"%char.
Definition extsep : ascii := "."%char.

(** [c.lower()] for one character.  Text is held as 8-bit characters, and
    the letters lowered are those of the ASCII range, [A] to [Z]; every other
    character is kept.  ([str.lower] also lowers capital letters beyond
    ASCII; none of them lowers to a letter of the ASCII range that the
    scripts look for.) *)
Definition lower_ascii (c : ascii) : ascii :=
  let n := nat_of_ascii c in
  if (65 <=? n)%nat && (n <=? 90)%nat then ascii_of_nat (n + 32) else c.

(** [s.lower()] *)
Fixpoint lower (s : string) : string :=
  match s with
  | EmptyString => EmptyString
  | String c r => String (lower_ascii c) (lower r)
  end.

(** [s.startswith(p)] *)
Fixpoint startswith (s p : string) : bool :=
  match p, s with
  | EmptyString, _ => true
  | String a p', String b s' => Ascii.eqb a b && startswith s' p'
  | String _ _, EmptyString => false
  end.

(** [needle in hay] *)
Fixpoint contains (needle hay : string) : bool :=
  startswith hay needle ||
  match hay with
  | EmptyString => false
  | String _ r => contains needle r
  end.

(** [s[-1:]]: the last character if there is one. *)
Fixpoint last_char (s : string) : option ascii :=
  match s with
  | EmptyString => None
  | String c EmptyString => Some c
  | String _ r => last_char r
  end.

(** [s.endswith(c)] for a one-character suffix. *)
Definition endswith_char (s : string) (c : ascii) : bool :=
  match last_char s with
  | Some d => Ascii.eqb d c
  | None => false
  end.

(** [s.rfind(c)] for a one-character needle: [None] stands for [-1]. *)
Fixpoint rfind (c : ascii) (s : string) : option nat :=
  match s with
  | EmptyString => None
  | String a r =>
      match rfind c r with
      | Some i => Some (S i)
      | None => if Ascii.eqb a c then Some 0%nat else None
      end
  end.

(** [s[:i]] and [s[i:]] for [0 <= i]. *)
Fixpoint take (i : nat) (s : string) : string :=
  match i, s with
  | S j, String a r => String a (take j r)
  | _, _ => EmptyString
  end.

Fixpoint drop (i : nat) (s : string) : string :=
  match i, s with
  | S j, String _ r => drop j r
  | _, _ => s
  end.

(** [c * n] *)
Fixpoint repeat_char (c : ascii) (n : nat) : string :=
  match n with
  | O => EmptyString
  | S m => String c (repeat_char c m)
  end.

(** [s.rstrip(c)]: an empty result of the recursive call says that the rest
    of the string was stripped whole. *)
Fixpoint rstrip (c : ascii) (s : string) : string :=
  match s with
  | EmptyString => EmptyString
  | String a r =>
      match rstrip c r with
      | EmptyString => if Ascii.eqb a c then EmptyString else String a EmptyString
      | r' => String a r'
      end
  end.

(** [str(n)] for an [int]. *)
Definition str_of_int (n : Z) : string := NilZero.string_of_int (Z.to_int n).

(** ** [os.path] (posixpath) *)

(** [os.path.split(p)]: cut after the last separator; trailing separators
    are stripped from the head unless the head is separators only. *)
Definition os_path_split (p : string) : string * string :=
  let i := match rfind sep p with Some k => S k | None => O end in
  let head := take i p in
  let tail := drop i p in
  let head :=
    if negb (String.eqb head "") &&
       negb (String.eqb head (repeat_char sep (String.length head)))
    then rstrip sep head else head in
  (head, tail).

(** [os.path.join(a, b)] *)
Definition os_path_join (a b : string) : string :=
  if startswith b (String sep "") then b
  else if String.eqb a "" || endswith_char a sep then a ++ b
  else a ++ String sep "" ++ b.

(** The scan of [genericpath._splitext] over the leading dots of the file
    name, [p] being the text from [filenameIndex] on and [n] the distance to
    [dotIndex]: [true] when a character other than the dot comes first. *)
Fixpoint nondot_before (n : nat) (p : string) : bool :=
  match n, p with
  | S m, String a r => if Ascii.eqb a extsep then nondot_before m r else true
  | _, _ => false
  end.

(** [os.path.splitext(p)] *)
Definition os_path_splitext (p : string) : string * string :=
  let filenameIndex := match rfind sep p with Some k => S k | None => O end in
  match rfind extsep p with
  | Some dotIndex =>
      if (filenameIndex <=? dotIndex)%nat &&
         nondot_before (dotIndex - filenameIndex) (drop filenameIndex p)
      then (take dotIndex p, drop dotIndex p)
      else (p, "")
  | None => (p, "")
  end.

(** The heads [os.path.split] returns: empty, separators only, or a text
    that does not end in a separator. *)
Definition split_head (d : string) : Prop :=
  d = "" \/
  (exists n, d = repeat_char sep (S n)) \/
  (exists x, last_char d = Some x /\ x <> sep).

(** ** [int(a / b)]

    [a / b] on two [int]s is the true division; its value is taken exactly, as
    a rational.  For the quotients of this repository ([n * 50 / 100] and
    [n / 2] with [n] an image dimension) the binary64 result is that rational:
    a multiple of one half below [2^52] is representable. *)

Definition truediv (a b : Z) : Q := (inject_Z a / inject_Z b)%Q.

(** [int(q)]: truncation toward zero. *)
Definition int_of (q : Q) : Z := Z.quot (Qnum q) (Zpos (Qden q)).

End Py.

(* ===================================================================== *)
(** * LGtest.py: the movie workflow                                       *)
(* ===================================================================== *)

Module LGtest.
Import Py.

(** ** Base models for movie components *)

Record Character := {
  name : string;
  role : string;
  background : string;
  arc : string;
  personality : string }.

Record Plot := {
  premise : string;
  synopsis : string;
  setting : string;
  turning_points : list string;
  resolution : string }.

Record Theme := {
  main_theme : string;
  moral : string;
  subthemes : list string }.

Record Screenplay := {
  acts : list string;
  key_scenes : list string;
  dialogue : list string }.

Record MarketAnalysis := {
  target_audience : list string;
  genre_positioning : string;
  unique_selling_points : list string;
  comparisons : list string }.

Inductive Message : Type :=
| SystemMessage (content : string)
| HumanMessage (content : string)
| AIMessage (content : string).

(** ** State

    [MovieState] is a [TypedDict]: a dictionary in which a key may be absent.
    A field of option type is [None] while its key is absent; the two keys
    with a reducer ([messages], [user_feedback]) always hold a list.  The
    dictionaries the nodes return have the same type.  The record sits in a
    module of its own because the node [market_analysis] has the name of a
    key. *)

Module State.
Record MovieState := {
  messages : list Message;
  concept : option string;
  plot : option Plot;
  characters : option (list Character);
  theme : option Theme;
  screenplay : option Screenplay;
  market_analysis : option MarketAnalysis;
  director_notes : option (list string);
  critic_feedback : option (list string);
  user_feedback : list string }.
End State.
Export State.

(** The empty dictionary [{}]. *)
Definition empty : MovieState :=
  {| messages := []; concept := None; plot := None; characters := None;
     theme := None; screenplay := None; State.market_analysis := None;
     director_notes := None; critic_feedback := None; user_feedback := [] |}.

(** One-key dictionaries: [{"plot": p}] and the like. *)
Definition dict_concept (c : string) : MovieState :=
  {| messages := []; concept := Some c; plot := None; characters := None;
     theme := None; screenplay := None; State.market_analysis := None;
     director_notes := None; critic_feedback := None; user_feedback := [] |}.

Definition dict_plot (p : Plot) : MovieState :=
  {| messages := []; concept := None; plot := Some p; characters := None;
     theme := None; screenplay := None; State.market_analysis := None;
     director_notes := None; critic_feedback := None; user_feedback := [] |}.

Definition dict_characters (cs : list Character) : MovieState :=
  {| messages := []; concept := None; plot := None; characters := Some cs;
     theme := None; screenplay := None; State.market_analysis := None;
     director_notes := None; critic_feedback := None; user_feedback := [] |}.

Definition dict_theme (t : Theme) : MovieState :=
  {| messages := []; concept := None; plot := None; characters := None;
     theme := Some t; screenplay := None; State.market_analysis := None;
     director_notes := None; critic_feedback := None; user_feedback := [] |}.

Definition dict_screenplay (sp : Screenplay) : MovieState :=
  {| messages := []; concept := None; plot := None; characters := None;
     theme := None; screenplay := Some sp; State.market_analysis := None;
     director_notes := None; critic_feedback := None; user_feedback := [] |}.

Definition dict_market_analysis (a : MarketAnalysis) : MovieState :=
  {| messages := []; concept := None; plot := None; characters := None;
     theme := None; screenplay := None; State.market_analysis := Some a;
     director_notes := None; critic_feedback := None; user_feedback := [] |}.

Definition dict_director_notes (l : list string) : MovieState :=
  {| messages := []; concept := None; plot := None; characters := None;
     theme := None; screenplay := None; State.market_analysis := None;
     director_notes := Some l; critic_feedback := None; user_feedback := [] |}.

Definition dict_critic_feedback (l : list string) : MovieState :=
  {| messages := []; concept := None; plot := None; characters := None;
     theme := None; screenplay := None; State.market_analysis := None;
     director_notes := None; critic_feedback := Some l; user_feedback := [] |}.

Definition dict_user_feedback (l : list string) : MovieState :=
  {| messages := []; concept := None; plot := None; characters := None;
     theme := None; screenplay := None; State.market_analysis := None;
     director_notes := None; critic_feedback := None; user_feedback := l |}.

(** *** Channels

    A key without a reducer keeps the last value written to it; a key
    annotated with [operator.add] ([user_feedback]) is the old list plus the
    written one.  [messages] has the reducer of [MessagesState]; no node of
    this graph writes it, and on lists without message ids it appends. *)

Definition last_value {A} (old new : option A) : option A :=
  match new with
  | Some v => Some v
  | None => old
  end.

Definition operator_add {A} (old new : list A) : list A := old ++ new.

(** The state after the dictionary [update] is written to it. *)
Definition merge (state update : MovieState) : MovieState :=
  {| messages := operator_add (messages state) (messages update);
     concept := last_value (concept state) (concept update);
     plot := last_value (plot state) (plot update);
     characters := last_value (characters state) (characters update);
     theme := last_value (theme state) (theme update);
     screenplay := last_value (screenplay state) (screenplay update);
     State.market_analysis :=
       last_value (State.market_analysis state) (State.market_analysis update);
     director_notes := last_value (director_notes state) (director_notes update);
     critic_feedback := last_value (critic_feedback state) (critic_feedback update);
     user_feedback := operator_add (user_feedback state) (user_feedback update) |}.

(** [state[key]] *)
Definition getitem {A} (key : string) (v : option A) : result A :=
  match v with
  | Some a => Ok a
  | None => Raise (KeyError key)
  end.

(** ** The language model

    [llm] is the chat model the script creates.  Its answers are outside the
    repository: they are given by an oracle that sees the number of calls made
    so far and the messages, so two calls may answer differently.  The fields
    follow the calls of the script: [with_structured_output(T).invoke] for
    each model [T], and [invoke(..).content]. *)

Record ChatOpenAI := {
  invoke_Plot : nat -> list Message -> Plot;
  invoke_Characters : nat -> list Message -> list Character;
  invoke_Theme : nat -> list Message -> Theme;
  invoke_Screenplay : nat -> list Message -> Screenplay;
  invoke_MarketAnalysis : nat -> list Message -> MarketAnalysis;
  invoke_content : nat -> list Message -> string }.

(** The text an f-string puts for a value that is not a string ([str] of a
    dictionary or of a list): the interpreter's formatting, not the
    repository's. *)
Record Formatting := {
  format_plot : Plot -> string;
  format_characters : list Character -> string;
  format_theme : Theme -> string;
  format_screenplay : Screenplay -> string;
  format_strings : list string -> string }.

(** A node runs with the number of model calls made so far and may raise. *)
Definition M (A : Type) : Type := nat -> result (A * nat).

Definition ret {A} (a : A) : M A := fun n => Ok (a, n).

Definition mbind {A B} (m : M A) (k : A -> M B) : M B :=
  fun n =>
    match m n with
    | Ok (a, n') => k a n'
    | Raise e => Raise e
    end.

Definition lift {A} (r : result A) : M A :=
  fun n =>
    match r with
    | Ok a => Ok (a, n)
    | Raise e => Raise e
    end.

Definition ask {A} (oracle : nat -> list Message -> A) (msgs : list Message) : M A :=
  fun n => Ok (oracle n msgs, S n).

Notation "x <- m ;; k" := (mbind m (fun x => k))
  (at level 61, m at next level, right associativity).

Definition nl : string := String (ascii_of_nat 10) "".
Definition indent : string := "        ".

(** ** Node functions *)

Section Nodes.

Variable llm : ChatOpenAI.
Variable fmt : Formatting.

Definition develop_plot_prompt : string :=
  "You are a master plot developer. Create a compelling plot from the given concept."
  ++ nl ++
  "    Consider genre conventions while being innovative. Focus on creating unexpected but satisfying story beats.".

Definition develop_plot_messages (c : string) : list Message :=
  [ SystemMessage develop_plot_prompt;
    HumanMessage ("Develop a plot for this concept: " ++ c) ].

(** Creates initial plot based on concept *)
Definition develop_plot (state : MovieState) : M MovieState :=
  c <- lift (getitem "concept" (concept state)) ;;
  let messages := develop_plot_messages c in
  plot <- ask (invoke_Plot llm) messages ;;
  ret (dict_plot plot).

Definition create_characters_prompt : string :=
  "You are a character development expert. Create compelling characters "
  ++ nl ++
  "    that will drive the plot forward while experiencing meaningful growth.".

Definition create_characters_messages (p : Plot) : list Message :=
  [ SystemMessage create_characters_prompt;
    HumanMessage ("Create characters for this plot: " ++ nl ++
                  indent ++ synopsis p ++ nl ++
                  indent ++ "Consider the theme and ensure character arcs support it.") ].

(** Develops characters that serve the plot *)
Definition create_characters (state : MovieState) : M MovieState :=
  p <- lift (getitem "plot" (plot state)) ;;
  let messages := create_characters_messages p in
  characters <- ask (invoke_Characters llm) messages ;;
  ret (dict_characters characters).

Definition develop_theme_prompt : string :=
  "You are a thematic analyst. Identify and develop meaningful themes "
  ++ nl ++
  "    that emerge from the story and characters.".

Definition develop_theme_messages (p : Plot) (cs : list Character) : list Message :=
  [ SystemMessage develop_theme_prompt;
    HumanMessage ("Analyze this plot and these characters for themes:" ++ nl ++
                  indent ++ "Plot: " ++ synopsis p ++ nl ++
                  indent ++ "Characters: " ++ format_characters fmt cs) ].

(** Extracts and develops themes from plot and characters *)
Definition develop_theme (state : MovieState) : M MovieState :=
  p <- lift (getitem "plot" (plot state)) ;;
  cs <- lift (getitem "characters" (characters state)) ;;
  let messages := develop_theme_messages p cs in
  theme <- ask (invoke_Theme llm) messages ;;
  ret (dict_theme theme).

Definition write_screenplay_prompt : string :=
  "You are a screenplay writer. Transform the plot into a "
  ++ nl ++
  "    structured screenplay while maintaining character voices and themes.".

Definition write_screenplay_messages (p : Plot) (cs : list Character) (t : Theme)
  : list Message :=
  [ SystemMessage write_screenplay_prompt;
    HumanMessage ("Write a screenplay based on:" ++ nl ++
                  indent ++ "Plot: " ++ format_plot fmt p ++ nl ++
                  indent ++ "Characters: " ++ format_characters fmt cs ++ nl ++
                  indent ++ "Theme: " ++ format_theme fmt t) ].

(** Converts plot into screenplay format *)
Definition write_screenplay (state : MovieState) : M MovieState :=
  p <- lift (getitem "plot" (plot state)) ;;
  cs <- lift (getitem "characters" (characters state)) ;;
  t <- lift (getitem "theme" (theme state)) ;;
  let messages := write_screenplay_messages p cs t in
  screenplay <- ask (invoke_Screenplay llm) messages ;;
  ret (dict_screenplay screenplay).

Definition director_review_prompt : string :=
  "You are a film director. Review the screenplay and provide "
  ++ nl ++
  "    notes on visualization, pacing, and dramatic impact.".

Definition director_review_messages (sp : Screenplay) : list Message :=
  [ SystemMessage director_review_prompt;
    HumanMessage ("Review this screenplay:" ++ nl ++
                  indent ++ format_screenplay fmt sp) ].

(** Reviews and provides directorial guidance *)
Definition director_review (state : MovieState) : M MovieState :=
  sp <- lift (getitem "screenplay" (screenplay state)) ;;
  let messages := director_review_messages sp in
  response <- ask (invoke_content llm) messages ;;
  ret (dict_director_notes [response]).

Definition critic_review_prompt : string :=
  "You are a film critic. Analyze the story for potential "
  ++ nl ++
  "    strengths and weaknesses, considering artistic merit and audience appeal.".

Definition critic_review_messages (p : Plot) (t : Theme) (sp : Screenplay)
  : list Message :=
  [ SystemMessage critic_review_prompt;
    HumanMessage ("Review this film concept:" ++ nl ++
                  indent ++ "Plot: " ++ format_plot fmt p ++ nl ++
                  indent ++ "Theme: " ++ format_theme fmt t ++ nl ++
                  indent ++ "Screenplay: " ++ format_screenplay fmt sp) ].

(** Provides critical analysis and feedback *)
Definition critic_review (state : MovieState) : M MovieState :=
  p <- lift (getitem "plot" (plot state)) ;;
  t <- lift (getitem "theme" (theme state)) ;;
  sp <- lift (getitem "screenplay" (screenplay state)) ;;
  let messages := critic_review_messages p t sp in
  response <- ask (invoke_content llm) messages ;;
  ret (dict_critic_feedback [response]).

Definition market_analysis_prompt : string :=
  "You are a film marketing expert. Analyze the market potential "
  ++ nl ++
  "    and identify target demographics.".

Definition market_analysis_messages (p : Plot) (t : Theme) (cf : list string)
  : list Message :=
  [ SystemMessage market_analysis_prompt;
    HumanMessage ("Analyze market potential for:" ++ nl ++
                  indent ++ "Plot: " ++ synopsis p ++ nl ++
                  indent ++ "Theme: " ++ main_theme t ++ nl ++
                  indent ++ "Critic Feedback: " ++ format_strings fmt cf) ].

(** Analyzes market potential and target audience *)
Definition market_analysis (state : MovieState) : M MovieState :=
  p <- lift (getitem "plot" (plot state)) ;;
  t <- lift (getitem "theme" (theme state)) ;;
  cf <- lift (getitem "critic_feedback" (critic_feedback state)) ;;
  let messages := market_analysis_messages p t cf in
  analysis <- ask (invoke_MarketAnalysis llm) messages ;;
  ret (dict_market_analysis analysis).

(** Process point where user can provide feedback: a no-op node, it returns
    [None] and nothing is written. *)
Definition handle_user_feedback (state : MovieState) : M MovieState :=
  ret empty.

Definition START : string := "__start__".
Definition END : string := "__end__".

(** Routes the workflow based on user feedback *)
Definition route_feedback (state : MovieState) : string :=
  let feedback := user_feedback state in
  match feedback with
  | [] => END
  | _ :: _ =>
      let latest_feedback := lower (last feedback "") in
      if contains "plot" latest_feedback then "develop_plot"
      else if contains "character" latest_feedback then "create_characters"
      else if contains "theme" latest_feedback then "develop_theme"
      else if contains "screenplay" latest_feedback then "write_screenplay"
      else END
  end.

(** ** The graph *)

Definition Node : Type := MovieState -> M MovieState.

Record Branch := {
  path : MovieState -> string;
  path_map : list (string * string) }.

Record StateGraph := {
  nodes : list (string * Node);
  edges : list (string * string);
  branches : list (string * Branch) }.

Definition new_graph : StateGraph :=
  {| nodes := []; edges := []; branches := [] |}.

Definition add_node (key : string) (action : Node) (g : StateGraph) : StateGraph :=
  {| nodes := nodes g ++ [(key, action)]; edges := edges g; branches := branches g |}.

Definition add_edge (start_key end_key : string) (g : StateGraph) : StateGraph :=
  {| nodes := nodes g; edges := edges g ++ [(start_key, end_key)];
     branches := branches g |}.

Definition add_conditional_edges (source : string) (router : MovieState -> string)
    (pm : list (string * string)) (g : StateGraph) : StateGraph :=
  {| nodes := nodes g; edges := edges g;
     branches := branches g ++ [(source, {| path := router; path_map := pm |})] |}.

Definition workflow : StateGraph :=
  let g := new_graph in
  (* Add nodes *)
  let g := add_node "develop_plot" develop_plot g in
  let g := add_node "create_characters" create_characters g in
  let g := add_node "develop_theme" develop_theme g in
  let g := add_node "write_screenplay" write_screenplay g in
  let g := add_node "director_review" director_review g in
  let g := add_node "critic_review" critic_review g in
  let g := add_node "market_analysis" market_analysis g in
  let g := add_node "handle_user_feedback" handle_user_feedback g in
  (* Add edges *)
  let g := add_edge START "develop_plot" g in
  let g := add_edge "develop_plot" "create_characters" g in
  let g := add_edge "create_characters" "develop_theme" g in
  let g := add_edge "develop_theme" "write_screenplay" g in
  let g := add_edge "write_screenplay" "director_review" g in
  let g := add_edge "director_review" "critic_review" g in
  let g := add_edge "critic_review" "market_analysis" g in
  let g := add_edge "market_analysis" "handle_user_feedback" g in
  add_conditional_edges "handle_user_feedback" route_feedback
    [ ("develop_plot", "develop_plot");
      ("create_characters", "create_characters");
      ("develop_theme", "develop_theme");
      ("write_screenplay", "write_screenplay");
      (END, END) ] g.

(** [compile] is called with [interrupt_before] alone: the compiled graph
    has no checkpointer.  It keeps nothing of a run once [invoke] has
    returned, so a run that stopped at an interrupt cannot be continued; the
    one operation of the compiled graph is [invoke], and every [invoke] is a
    new run from [START]. *)
Record CompiledGraph := {
  builder : StateGraph;
  interrupt_before : list string }.

Definition compile (g : StateGraph) (interrupt : list string) : CompiledGraph :=
  {| builder := g; interrupt_before := interrupt |}.

(** Compile graph with user feedback interruption *)
Definition graph : CompiledGraph := compile workflow ["handle_user_feedback"].

(** ** The engine

    LangGraph's run loop, for a graph in which every node has one successor
    (an edge, or the target a branch chooses): the node at hand runs on the
    state, the dictionary it returns is written through the channels, and the
    successor is next.  The run stops at [END], before a node listed in
    [interrupt_before], on an exception, or when [recursion_limit] nodes have
    run. *)

Inductive Outcome : Type :=
| Interrupted (state : MovieState) (next : string)
| Finished (state : MovieState)
| Failed (e : exn)
| GraphRecursionError.

Record Run := {
  outcome : Outcome;
  executed : list string;   (* the nodes that ran, in order *)
  calls : nat }.            (* model calls made so far *)

Fixpoint lookup {A} (key : string) (d : list (string * A)) : option A :=
  match d with
  | [] => None
  | (k, v) :: r => if String.eqb k key then Some v else lookup key r
  end.

Definition recursion_limit : nat := 25.

Fixpoint run (g : CompiledGraph) (limit : nat) (cur : string)
    (state : MovieState) (n : nat) (done : list string) : Run :=
  if String.eqb cur END then
    {| outcome := Finished state; executed := done; calls := n |}
  else if existsb (String.eqb cur) (interrupt_before g) then
    {| outcome := Interrupted state cur; executed := done; calls := n |}
  else
    match limit with
    | O => {| outcome := GraphRecursionError; executed := done; calls := n |}
    | S limit' =>
        match lookup cur (nodes (builder g)) with
        | None => {| outcome := Failed (KeyError cur); executed := done; calls := n |}
        | Some action =>
            match action state n with
            | Raise e => {| outcome := Failed e; executed := done; calls := n |}
            | Ok (update, n') =>
                let state' := merge state update in
                let done' := done ++ [cur] in
                match lookup cur (branches (builder g)) with
                | Some b =>
                    match lookup (path b state') (path_map b) with
                    | Some next => run g limit' next state' n' done'
                    | None =>
                        {| outcome := Failed (KeyError (path b state'));
                           executed := done'; calls := n' |}
                    end
                | None =>
                    match lookup cur (edges (builder g)) with
                    | Some next => run g limit' next state' n' done'
                    | None =>
                        {| outcome := Finished state'; executed := done'; calls := n' |}
                    end
                end
            end
        end
    end.

(** [graph.invoke(input)] with [n] model calls made before: the input is
    written to the empty channels and the run starts at the successor of
    [START]. *)
Definition invoke (g : CompiledGraph) (input : MovieState) (n : nat) : Run :=
  match lookup START (edges (builder g)) with
  | Some first => run g recursion_limit first (merge empty input) n []
  | None => {| outcome := Finished (merge empty input); executed := []; calls := n |}
  end.

(** [initial_state] of the example usage. *)
Definition initial_state : MovieState :=
  dict_concept "A time-traveling chef who must cook meals that change historical events".

Definition result : Run := invoke graph initial_state 0.

(** ** The resume call

    The script stops at its one [invoke].  What a caller does to go on is
    not in the repository; it is taken from the specification. *)

(** Modelled from the spec: the input of the resume call of section 6, "the
    previously returned state plus one new [user_feedback] string appended". *)
Definition fed (s : MovieState) (fb : string) : MovieState :=
  {| messages := messages s; concept := concept s; plot := plot s;
     characters := characters s; theme := theme s; screenplay := screenplay s;
     State.market_analysis := State.market_analysis s;
     director_notes := director_notes s; critic_feedback := critic_feedback s;
     user_feedback := user_feedback s ++ [fb] |}.

(** Modelled from the spec: a run of the script followed by resume calls
    (section 6: the engine is "invoked with the previously returned state plus
    one new [user_feedback] string appended").  [session c fbs r] says that
    the graph, invoked on the concept [c] and then invoked again once for
    each string of [fbs] in turn, on the state the call before returned with
    that string appended, has produced [r].  Each of these calls is the
    [invoke] of the compiled graph of the script. *)
Inductive session (c : string) : list string -> Run -> Prop :=
| session_invoke :
    session c [] (invoke graph (dict_concept c) 0)
| session_resume fbs r state next fb :
    session c fbs r ->
    outcome r = Interrupted state next ->
    session c (fbs ++ [fb]) (invoke graph (fed state fb) (calls r)).

End Nodes.

(** ** Vocabulary for the properties *)

(** Every key is present, and the two review lists hold one entry each. *)
Definition populated (s : MovieState) : Prop :=
  exists p cs t sp ma dn cf,
    plot s = Some p /\ characters s = Some cs /\ theme s = Some t /\
    screenplay s = Some sp /\ State.market_analysis s = Some ma /\
    director_notes s = Some [dn] /\ critic_feedback s = Some [cf].

(** ** A model stub and a formatting for closed examples *)

Definition tag (n : nat) (s : string) : string := s ++ "#" ++ str_of_int (Z.of_nat n).

Definition stub_llm : ChatOpenAI :=
  {| invoke_Plot := fun n _ =>
       {| premise := tag n "premise"; synopsis := tag n "synopsis";
          setting := tag n "setting"; turning_points := [tag n "turn"];
          resolution := tag n "resolution" |};
     invoke_Characters := fun n _ =>
       [ {| name := tag n "name"; role := "protagonist"; background := "";
            arc := ""; personality := "" |} ];
     invoke_Theme := fun n _ =>
       {| main_theme := tag n "theme"; moral := ""; subthemes := [] |};
     invoke_Screenplay := fun n _ =>
       {| acts := [tag n "act"]; key_scenes := []; dialogue := [] |};
     invoke_MarketAnalysis := fun n _ =>
       {| target_audience := [tag n "audience"]; genre_positioning := "";
          unique_selling_points := []; comparisons := [] |};
     invoke_content := fun n _ => tag n "review" |}.

Definition stub_fmt : Formatting :=
  {| format_plot := synopsis;
     format_characters := fun cs => String.concat ", " (map name cs);
     format_theme := main_theme;
     format_screenplay := fun sp => String.concat ", " (acts sp);
     format_strings := String.concat ", " |}.

(** A session with the stub model: the first pass, and a resume call that
    asks for a new plot. *)

Definition demo_run : Run := invoke (graph stub_llm stub_fmt) (dict_concept "chef") 0.

Definition demo_state : MovieState :=
  match outcome demo_run with
  | Interrupted s _ => s
  | _ => empty
  end.

Definition demo_resumed : Run :=
  invoke (graph stub_llm stub_fmt) (fed demo_state "tighten the plot") (calls demo_run).

Definition demo_state' : MovieState :=
  match outcome demo_resumed with
  | Interrupted s _ => s
  | _ => empty
  end.

(** The nodes of one pass, in the order of the chain. *)
Definition one_pass : list string :=
  [ "develop_plot"; "create_characters"; "develop_theme"; "write_screenplay";
    "director_review"; "critic_review"; "market_analysis" ].

(** A second stub session: a resume call that asks for other characters. *)
Definition demo_recast : Run :=
  invoke (graph stub_llm stub_fmt) (fed demo_state "More CHARACTER depth") (calls demo_run).

Definition demo_recast_state : MovieState :=
  match outcome demo_recast with
  | Interrupted s _ => s
  | _ => empty
  end.

End LGtest.

(* ===================================================================== *)
(** * FaceRecog.py: the face-match call                                   *)
(* ===================================================================== *)

Module FaceRecog.
Import Py.

(** What [SelfieAuth] hands back: the [False] of its handler, or the value of
    [compare_faces], which is a list with one boolean per known encoding. *)
Inductive pyobj : Type :=
| Bool (b : bool)
| BoolList (l : list bool).

(** What the call shows: the line of [print("Error : ", e)] and the picture
    of [ShowPic]. *)
Inductive output : Type :=
| Printed (e : exn)
| Displayed (img : string).

Section WithLibrary.

(** The [face_recognition] library: each call returns or raises. *)
Variable Image : Type.
Variable Encoding : Type.
Variable load_image_file : string -> result Image.
Variable face_encodings : Image -> result (list Encoding).
Variable compare_faces : list Encoding -> Encoding -> result (list bool).

(** [l[0]] *)
Definition first {A} (l : list A) : result A :=
  match l with
  | x :: _ => Ok x
  | [] => Raise (IndexError "list index out of range")
  end.

(** Displaying image when path is passed in this function: the plotting
    calls are taken as one display that returns. *)
Definition ShowPic (img : string) : list output := [Displayed img].

(** The body of the [try]: both encodings, the first one first. *)
Definition encodings (user_given_image user_selfie_image : Image)
  : result (Encoding * Encoding) :=
  bind (face_encodings user_given_image) (fun found =>
  bind (first found) (fun user_encoding =>
  bind (face_encodings user_selfie_image) (fun found' =>
  bind (first found') (fun selfie_encoding =>
  Ok (user_encoding, selfie_encoding))))).

(** Load, Encode, and compare for single user *)
Definition SelfieAuth (auth_image new_image : string) : result pyobj * list output :=
  match load_image_file auth_image with
  | Raise e => (Raise e, [])
  | Ok user_given_image =>
      match load_image_file new_image with
      | Raise e => (Raise e, [])
      | Ok user_selfie_image =>
          match encodings user_given_image user_selfie_image with
          | Raise e =>                                (* except Exception as e *)
              (Ok (Bool false), Printed e :: ShowPic new_image)
          | Ok (user_encoding, selfie_encoding) =>
              match compare_faces [user_encoding] selfie_encoding with
              | Raise e => (Raise e, [])
              | Ok result => (Ok (BoolList result), ShowPic new_image)
              end
          end
      end
  end.

End WithLibrary.

(** A library stub for closed examples: an image is the list of the faces on
    it, a face is a number, the file name is the picture, and two faces
    match when the numbers are equal. *)
Definition stub_load (file : string) : result (list nat) :=
  if String.eqb file "two.jpg" then Ok [1; 2]%nat
  else if String.eqb file "one.jpg" then Ok [1]%nat
  else if String.eqb file "other.jpg" then Ok [7]%nat
  else if String.eqb file "empty.jpg" then Ok []
  else Raise (OtherError "FileNotFoundError" file).

Definition stub_encodings (img : list nat) : result (list nat) := Ok img.

Definition stub_compare (known : list nat) (face : nat) : result (list bool) :=
  Ok (map (fun k => Nat.eqb k face) known).

End FaceRecog.

(* ===================================================================== *)
(** * FRT2.py: thumbnail into a second bucket                             *)
(* ===================================================================== *)

Module FRT2.
Import Py.

(** The event payload. *)
Record Event := { bucket : string; name : string }.

(** [os.environ] *)
Definition Environ : Type := list (string * string).

(** [env.get(key, default)] *)
Fixpoint environ_get (env : Environ) (key default : string) : string :=
  match env with
  | [] => default
  | (k, v) :: r => if String.eqb k key then v else environ_get r key default
  end.

Section WithLibrary.

(** The storage client and the codec: the calls are taken to return; what
    the function asks of them is recorded, call by call. *)
Variable Bytes : Type.
Variable Image : Type.
Variable shape0 : Image -> Z.                 (* rows: the height *)
Variable shape1 : Image -> Z.                 (* columns: the width *)
Variable download_as_string : string -> string -> Bytes.
Variable imdecode : Bytes -> Image.
Variable cv2_resize : Image -> Z * Z -> Image.
Variable temp_name : string.                  (* [NamedTemporaryFile().name] *)

Inductive call : Type :=
| get_bucket (bucket_name : string)
| get_blob (bucket_name blob_name : string)
| download (bucket_name blob_name : string)
| decode (data : Bytes)
| resize (image : Image) (dim : Z * Z)
| imwrite (file : string) (image : Image)
| blob (bucket_name blob_name : string)
| upload_from_filename (bucket_name blob_name file : string).

Definition scale_percent : Z := 50.

(** [dim] of the script: [(width, height)] at [scale_percent]. *)
Definition dim_of (image : Image) : Z * Z :=
  let width := int_of (truediv (shape1 image * scale_percent) 100) in
  let height := int_of (truediv (shape0 image * scale_percent) 100) in
  (width, height).

(** The destination bucket name read from the environment. *)
Definition dest_bucket_name_of (env : Environ) : string :=
  environ_get env "PROCESSED_BUCKET_NAME" "Specified environment variable is not set.".

(** Triggered by a change to a Cloud Storage bucket: the calls made, in
    order. *)
Definition reformat_image (event : Event) (env : Environ) : list call :=
  let file := event in
  let data := download_as_string (bucket file) (name file) in
  let image := imdecode data in
  let dim := dim_of image in
  let resized := cv2_resize image dim in
  let temp_file := (temp_name ++ name file)%string in
  let dest_filename := name file in
  let dest_bucket_name := dest_bucket_name_of env in
  [ get_bucket (bucket file);
    get_blob (bucket file) (name file);
    download (bucket file) (name file);
    decode data;
    resize image dim;
    imwrite temp_file resized;
    get_bucket dest_bucket_name;
    blob dest_bucket_name dest_filename;
    upload_from_filename dest_bucket_name dest_filename temp_file ].

End WithLibrary.

End FRT2.

(* ===================================================================== *)
(** * FRT3.py: thumbnail beside the original                              *)
(* ===================================================================== *)

Module FRT3.
Import Py.

Definition NEW_FILE_PREFIX : string := "thumbnail_".

(** The event payload. *)
Record Event := { bucket : string; name : string }.

Section WithLibrary.

(** The storage client, the codec and the file system are outside the
    repository.  Each call is an oracle that returns or raises; [cv2.imread]
    does not raise on a file it cannot read but returns [None].  What the
    function asks of them is recorded, call by call; the script catches
    nothing, so the first call that raises ends the function there. *)
Variable Image : Type.
Variable shape0 : Image -> Z.                 (* rows: the height *)
Variable shape1 : Image -> Z.                 (* columns: the width *)
Variable mkstemp : string -> result string.   (* suffix to file name *)
Variable download_to_filename : string -> string -> string -> result unit.
Variable imread : string -> option Image.
Variable cv2_resize : Image -> Z * Z -> result Image.
Variable imwrite : string -> Image -> result bool.
Variable upload_from_filename : string -> string -> string -> result unit.
Variable remove : string -> result unit.

Inductive call : Type :=
| printed (line : string)
| call_mkstemp (suffix : string)
| call_download_to_filename (bucket_name blob_name file : string)
| call_imread (file : string)
| call_resize (image : Image) (dsize : Z * Z)
| call_imwrite (file : string) (image : Image)
| call_upload_from_filename (bucket_name blob_name file : string)
| call_remove (file : string).

(** A piece of the script: its value or the exception it raised, and the
    calls it made, the one that raised being the last. *)
Definition Act (A : Type) : Type := result A * list call.

Definition done {A} (a : A) : Act A := (Ok a, []).

Definition andthen {A B} (m : Act A) (k : A -> Act B) : Act B :=
  match m with
  | (Ok a, made) => let '(r, more) := k a in (r, made ++ more)
  | (Raise e, made) => (Raise e, made)
  end.

Definition called {A} (c : call) (r : result A) : Act A := (r, [c]).

Definition print (line : string) : Act unit := (Ok tt, [printed line]).

Notation "x <- m ;; k" := (andthen m (fun x => k))
  (at level 61, m at next level, right associativity).

Definition download (bucket blob_name : string) : Act string :=
  let '(_, _ext) := os_path_splitext blob_name in
  temp_local_filename <- called (call_mkstemp _ext) (mkstemp _ext) ;;
  _ <- called (call_download_to_filename bucket blob_name temp_local_filename)
         (download_to_filename bucket blob_name temp_local_filename) ;;
  _ <- print ("Blob " ++ blob_name ++ " downloaded to " ++ temp_local_filename ++ ".")%string ;;
  done temp_local_filename.

(** The name the thumbnail of [blob_name] is stored under. *)
Definition new_file_name_of (blob_name : string) : string :=
  let '(_dir, _name) := os_path_split blob_name in
  os_path_join _dir (NEW_FILE_PREFIX ++ _name)%string.

Definition upload (bucket blob_name file_name : string) : Act unit :=
  let new_file_name := new_file_name_of blob_name in
  _ <- called (call_upload_from_filename bucket new_file_name file_name)
         (upload_from_filename bucket new_file_name file_name) ;;
  print ("New image uploaded to: gs://" ++ bucket ++ "/" ++ new_file_name)%string.

(** [dsize] of the script: [(int(width/2), int(height/2))]. *)
Definition dsize_of (img : Image) : Z * Z :=
  let height := shape0 img in
  let width := shape1 img in
  (int_of (truediv width 2), int_of (truediv height 2)).

(** [img.shape] on what [cv2.imread] returned. *)
Definition shape_of (img : option Image) : result Image :=
  match img with
  | Some i => Ok i
  | None => Raise (AttributeError "'NoneType' object has no attribute 'shape'")
  end.

Definition resize (file_name : string) : Act string :=
  img <- called (call_imread file_name) (Ok (imread file_name)) ;;
  img <- (shape_of img, []) ;;
  let height := shape0 img in
  let width := shape1 img in
  _ <- print ("Old blob width " ++ str_of_int width ++ ", height "
              ++ str_of_int height)%string ;;
  dst <- called (call_resize img (dsize_of img)) (cv2_resize img (dsize_of img)) ;;
  _ <- called (call_imwrite file_name dst) (imwrite file_name dst) ;; (* requierd ext *)
  _ <- print ("New blob width " ++ str_of_int (shape0 dst) ++ ", height "
              ++ str_of_int (shape1 dst))%string ;;
  done file_name.

(** Triggered by a change to a Cloud Storage bucket. *)
Definition main (event : Event) : Act unit :=
  let name := name event in
  let bucket := bucket event in
  let '(_, _name) := os_path_split name in
  if startswith _name NEW_FILE_PREFIX then
    print ("Blob " ++ name ++ " is already resized.")%string
  else
    file_name <- download bucket name ;;
    _ <- resize file_name ;;
    _ <- upload bucket name file_name ;;
    called (call_remove file_name) (remove file_name).

(** The calls of [main] up to the upload, when each of them returns. *)
Definition before_upload (bucket name temp : string) (img dst : Image) : list call :=
  [ call_mkstemp (snd (os_path_splitext name));
    call_download_to_filename bucket name temp;
    printed ("Blob " ++ name ++ " downloaded to " ++ temp ++ ".")%string;
    call_imread temp;
    printed ("Old blob width " ++ str_of_int (shape1 img) ++ ", height "
             ++ str_of_int (shape0 img))%string;
    call_resize img (dsize_of img);
    call_imwrite temp dst;
    printed ("New blob width " ++ str_of_int (shape0 dst) ++ ", height "
             ++ str_of_int (shape1 dst))%string ].

End WithLibrary.

(** ** A library stub for closed examples

    Images are their shape, [(height, width)].  The stub codec does what
    OpenCV does at two edges: [cv2.resize] raises on a target size with a
    zero side, and [cv2.imwrite] raises on a file name without extension,
    for which it has no encoder. *)

Definition stub_mkstemp (suffix : string) : result string :=
  Ok ("/tmp/tmp1" ++ suffix)%string.

Definition stub_transfer (bucket_name blob_name file : string) : result unit := Ok tt.

Definition stub_imread (file : string) : option (Z * Z) := Some (5, 3)%Z.

Definition stub_resize (img : Z * Z) (dsize : Z * Z) : result (Z * Z) :=
  if (fst dsize =? 0)%Z || (snd dsize =? 0)%Z
  then Raise (OtherError "cv2.error" "resize: the target size is empty")
  else Ok (snd dsize, fst dsize).

Definition stub_imwrite (file : string) (img : Z * Z) : result bool :=
  if String.eqb (snd (os_path_splitext file)) ""
  then Raise (OtherError "cv2.error" "could not find a writer for the specified extension")
  else Ok true.

Definition stub_remove (file : string) : result unit := Ok tt.

Definition stub_main : Event -> Act (Z * Z) unit :=
  main (Z * Z) fst snd stub_mkstemp stub_transfer stub_imread stub_resize
    stub_imwrite stub_transfer stub_remove.

End FRT3.

(* ===================================================================== *)
(* ===================================================================== *)
(** * Properties                                                          *)
(* ===================================================================== *)
(* ===================================================================== *)

Import Py.

(* ===================================================================== *)
(** * Facts about the Python runtime                                      *)
(* ===================================================================== *)

Section StrFacts.

Lemma startswith_spec s p :
  startswith s p = true <-> exists r, s = (p ++ r)%string.
Proof.
  revert s. induction p as [|a p IH]; intros s.
  - split; [intros _; now exists s | intros _; now destruct s].
  - destruct s as [|b s]; simpl.
    + split; [discriminate | intros [r Hr]; discriminate].
    + rewrite andb_true_iff, Ascii.eqb_eq, IH. split.
      * intros [-> [r ->]]. now exists r.
      * intros [r Hr]. injection Hr as -> ->. split; [reflexivity | now exists r].
Qed.

(** [needle in hay] holds exactly when [hay] is some text, then [needle],
    then some text. *)
Lemma contains_spec needle hay :
  contains needle hay = true <->
  exists before after, hay = (before ++ needle ++ after)%string.
Proof.
  induction hay as [|c hay IH].
  - change (contains needle "") with (startswith "" needle || false).
    rewrite orb_false_r, startswith_spec. split.
    + intros [r Hr]. now exists EmptyString, r.
    + intros [[|b before] [after H]]; [now exists after | discriminate].
  - change (contains needle (String c hay))
      with (startswith (String c hay) needle || contains needle hay).
    rewrite orb_true_iff, startswith_spec, IH. split.
    + intros [[r Hr] | [before [after H]]].
      * now exists EmptyString, r.
      * exists (String c before), after. simpl. now rewrite H.
    + intros [[|b before] [after H]].
      * left. now exists after.
      * right. simpl in H. injection H as _ H. now exists before, after.
Qed.

Lemma lower_app a b : lower (a ++ b) = (lower a ++ lower b)%string.
Proof. induction a as [|c a IH]; simpl; [reflexivity | now rewrite IH]. Qed.

(** A keyword written in lower case is found in the lowered text whenever it
    stands in the text itself. *)
Lemma contains_lower needle hay :
  lower needle = needle ->
  contains needle hay = true -> contains needle (lower hay) = true.
Proof.
  intros Hn. rewrite !contains_spec. intros [before [after ->]].
  exists (lower before), (lower after). now rewrite !lower_app, Hn.
Qed.

End StrFacts.

Section PathFacts.

Variable c : ascii.

Lemma rfind_app_none a b : rfind c b = None -> rfind c (a ++ b) = rfind c a.
Proof.
  intros Hb. induction a as [|x a IH]; simpl; [exact Hb | now rewrite IH].
Qed.

Lemma rfind_app_found a b :
  rfind c b = None -> rfind c (a ++ String c b) = Some (String.length a).
Proof.
  intros Hb. induction a as [|x a IH]; simpl.
  - now rewrite Hb, Ascii.eqb_refl.
  - now rewrite IH.
Qed.

(** The cut [rfind] finds: the text after it holds no [c]. *)
Lemma rfind_found p k :
  rfind c p = Some k ->
  exists a b, p = (a ++ String c b)%string /\ String.length a = k /\ rfind c b = None.
Proof.
  revert k. induction p as [|x r IH]; intros k; simpl; [discriminate|].
  destruct (rfind c r) as [i|] eqn:Hr.
  - intros [= <-]. destruct (IH i eq_refl) as (a & b & -> & Hlen & Hb).
    exists (String x a), b. simpl. now rewrite Hlen.
  - destruct (Ascii.eqb x c) eqn:Hx; [|discriminate].
    intros [= <-]. apply Ascii.eqb_eq in Hx as ->. now exists "", r.
Qed.

Lemma rfind_none_startswith t : rfind c t = None -> startswith t (String c "") = false.
Proof.
  destruct t as [|x r]; simpl; [reflexivity|].
  destruct (rfind c r); [discriminate|].
  destruct (Ascii.eqb x c) eqn:Hx; [discriminate|].
  intros _. now rewrite Ascii.eqb_sym, Hx.
Qed.

Lemma rfind_repeat n : rfind c (repeat_char c (S n)) = Some n.
Proof.
  induction n as [|n IH].
  - simpl. now rewrite Ascii.eqb_refl.
  - change (repeat_char c (S (S n))) with (String c (repeat_char c (S n))).
    cbn [rfind]. now rewrite IH.
Qed.

Lemma length_repeat n : String.length (repeat_char c n) = n.
Proof. induction n; simpl; congruence. Qed.

Lemma last_char_repeat n : last_char (repeat_char c (S n)) = Some c.
Proof.
  induction n as [|n IH]; [reflexivity|].
  change (repeat_char c (S (S n))) with (String c (repeat_char c (S n))).
  cbn [last_char]. exact IH.
Qed.

Lemma last_char_cons x s : s <> "" -> last_char (String x s) = last_char s.
Proof. destruct s; [congruence | reflexivity]. Qed.

Lemma rstrip_repeat n : rstrip c (repeat_char c n) = "".
Proof.
  induction n as [|n IH]; simpl; [reflexivity|]. now rewrite IH, Ascii.eqb_refl.
Qed.

(** [rstrip] leaves nothing of a text of [c]s, and a text that does not end
    in [c] of any other. *)
Lemma rstrip_cases s :
  (rstrip c s = "" /\ s = repeat_char c (String.length s)) \/
  (exists d, last_char (rstrip c s) = Some d /\ d <> c).
Proof.
  induction s as [|x r IH]; simpl; [now left|].
  destruct IH as [[-> Hall] | [d [Hd Hne]]].
  - destruct (Ascii.eqb x c) eqn:Hx.
    + left. apply Ascii.eqb_eq in Hx as ->. split; [reflexivity | now f_equal].
    + right. exists x. split; [reflexivity|]. now apply Ascii.eqb_neq.
  - right. exists d. destruct (rstrip c r) as [|y r'] eqn:Hr; [discriminate|].
    split; [|exact Hne]. rewrite last_char_cons; [exact Hd | discriminate].
Qed.

Lemma rstrip_snoc s d :
  last_char s = Some d -> d <> c -> rstrip c (s ++ String c "") = s.
Proof.
  induction s as [|x r IH]; [discriminate|]. intros Hlast Hne.
  destruct r as [|y r'].
  - simpl in *. injection Hlast as ->. rewrite Ascii.eqb_refl.
    apply Ascii.eqb_neq in Hne. now rewrite Hne.
  - change (rstrip c (String x (String y r') ++ String c ""))
      with (match rstrip c (String y r' ++ String c "") with
            | "" => if Ascii.eqb x c then "" else String x ""
            | r'' => String x r''
            end).
    rewrite IH; [reflexivity | exact Hlast | exact Hne].
Qed.

Lemma take_app a b : take (String.length a) (a ++ b) = a.
Proof. induction a as [|x a IH]; simpl; [now destruct b | now rewrite IH]. Qed.

Lemma drop_app a b : drop (String.length a) (a ++ b) = b.
Proof. induction a as [|x a IH]; simpl; [now destruct b | exact IH]. Qed.

Lemma take_app_cut a x b :
  take (S (String.length a)) (a ++ String x b) = (a ++ String x "")%string.
Proof.
  induction a as [|y a IH]; [now destruct b|].
  change (String y (take (S (String.length a)) (a ++ String x b))
          = String y (a ++ String x "")).
  now rewrite IH.
Qed.

Lemma drop_app_cut a x b : drop (S (String.length a)) (a ++ String x b) = b.
Proof. induction a as [|y a IH]; [now destruct b | exact IH]. Qed.

Lemma length_app a b :
  String.length (a ++ b) = (String.length a + String.length b)%nat.
Proof. induction a as [|x a IH]; simpl; [reflexivity | now rewrite IH]. Qed.

End PathFacts.

Section SplitJoin.


(** [os.path.split] returns such a head and a tail without separator. *)
Lemma os_path_split_spec p :
  split_head (fst (os_path_split p)) /\ rfind sep (snd (os_path_split p)) = None.
Proof.
  unfold os_path_split. destruct (rfind sep p) as [k|] eqn:Hp.
  - destruct (rfind_found sep p k Hp) as (a & b & -> & <- & Hb).
    rewrite take_app_cut, drop_app_cut. cbn [fst snd]. split; [|exact Hb].
    destruct (String.eqb (a ++ String sep "") "") eqn:He; cbn [negb andb].
    { apply String.eqb_eq in He. destruct a; discriminate. }
    destruct (String.eqb (a ++ String sep "")
                (repeat_char sep (String.length (a ++ String sep "")))) eqn:Hall;
      cbn [negb].
    + right; left. apply String.eqb_eq in Hall. rewrite Hall.
      rewrite length_app. simpl. rewrite Nat.add_comm. simpl. eauto.
    + destruct (rstrip_cases sep (a ++ String sep "")) as [[_ Hrep] | Hlast].
      * rewrite <- Hrep in Hall. now rewrite String.eqb_refl in Hall.
      * right; right. exact Hlast.
  - simpl. split; [now left|]. destruct p; exact Hp.
Qed.

(** Joining such a head with a file name and splitting again gives the
    head and the file name back. *)
Lemma os_path_split_join d t :
  split_head d -> rfind sep t = None ->
  os_path_split (os_path_join d t) = (d, t).
Proof.
  intros Hd Ht. unfold os_path_join.
  rewrite (rfind_none_startswith sep t Ht).
  destruct Hd as [-> | [[n ->] | [x [Hlast Hx]]]].
  - simpl. unfold os_path_split. rewrite Ht. simpl. now destruct t.
  - unfold endswith_char. rewrite last_char_repeat, Ascii.eqb_refl, orb_true_r.
    unfold os_path_split.
    rewrite (rfind_app_none sep _ _ Ht), rfind_repeat.
    pose proof (take_app (repeat_char sep (S n)) t) as Htake.
    pose proof (drop_app (repeat_char sep (S n)) t) as Hdrop.
    rewrite length_repeat in Htake, Hdrop. rewrite Htake, Hdrop.
    now rewrite length_repeat, String.eqb_refl, andb_false_r.
  - assert (Hne : d <> "") by (intros ->; discriminate).
    apply String.eqb_neq in Hne as Hne'. rewrite Hne'.
    unfold endswith_char. rewrite Hlast.
    apply Ascii.eqb_neq in Hx as Hx'. rewrite Hx'. cbn [orb].
    change (String sep "" ++ t)%string with (String sep t).
    unfold os_path_split. rewrite (rfind_app_found sep d t Ht).
    rewrite take_app_cut, drop_app_cut.
    assert (Hstrip := rstrip_snoc sep d x Hlast Hx).
    destruct (String.eqb (d ++ String sep "") "") eqn:He.
    { apply String.eqb_eq in He. destruct d; discriminate. }
    destruct (String.eqb (d ++ String sep "")
                (repeat_char sep (String.length (d ++ String sep "")))) eqn:Hall.
    { apply String.eqb_eq in Hall. rewrite Hall, rstrip_repeat in Hstrip.
      congruence. }
    cbn [negb andb]. now rewrite Hstrip.
Qed.

End SplitJoin.

(* ===================================================================== *)
(** * LGtest.py: routing, the first pass, resume calls                    *)
(* ===================================================================== *)

Section Routing.
Import LGtest.

(** The router reads the last [user_feedback] entry only. *)
Lemma route_feedback_snoc s earlier fb :
  user_feedback s = earlier ++ [fb] ->
  route_feedback s =
    (let f := lower fb in
     if contains "plot" f then "develop_plot"
     else if contains "character" f then "create_characters"
     else if contains "theme" f then "develop_theme"
     else if contains "screenplay" f then "write_screenplay"
     else END).
Proof.
  intros H. unfold route_feedback. rewrite H, last_last.
  destruct earlier; reflexivity.
Qed.

(** C1. The feedback router ends the run on an empty [user_feedback] list;
    otherwise it looks at the last entry alone, lowered, and takes the first
    keyword found in the order plot, character, theme, screenplay, ending
    the run when none is found.  Two states with the same last entry are
    routed alike. *)
Theorem route_feedback_priority : forall s : MovieState,
  (user_feedback s = [] -> route_feedback s = END) /\
  (forall earlier fb, user_feedback s = earlier ++ [fb] ->
     let f := lower fb in
     (contains "plot" f = true -> route_feedback s = "develop_plot") /\
     (contains "plot" f = false -> contains "character" f = true ->
      route_feedback s = "create_characters") /\
     (contains "plot" f = false -> contains "character" f = false ->
      contains "theme" f = true -> route_feedback s = "develop_theme") /\
     (contains "plot" f = false -> contains "character" f = false ->
      contains "theme" f = false -> contains "screenplay" f = true ->
      route_feedback s = "write_screenplay") /\
     (contains "plot" f = false -> contains "character" f = false ->
      contains "theme" f = false -> contains "screenplay" f = false ->
      route_feedback s = END) /\
     (forall s' earlier', user_feedback s' = earlier' ++ [fb] ->
      route_feedback s' = route_feedback s)).
Proof.
  intros s. split.
  - intros H. unfold route_feedback. now rewrite H.
  - intros earlier fb H f. subst f.
    rewrite (route_feedback_snoc s earlier fb H). cbv zeta.
    repeat split.
    + now intros ->.
    + now intros -> ->.
    + now intros -> -> ->.
    + now intros -> -> -> ->.
    + now intros -> -> -> ->.
    + intros s' earlier' H'. now rewrite (route_feedback_snoc s' earlier' fb H').
Qed.

(** The precedence of the spec's example: feedback naming both the plot and
    the theme goes to [develop_plot]. *)
Lemma route_feedback_priority_witness :
  route_feedback (dict_user_feedback ["first"; "A darker THEME and a tighter Plot"])
  = "develop_plot".
Proof.
  exact (proj1 (proj2 (route_feedback_priority
                         (dict_user_feedback ["first"; "A darker THEME and a tighter Plot"]))
                      ["first"] "A darker THEME and a tighter Plot" eq_refl)
           eq_refl).
Defined.

End Routing.

Section Engine.
Import LGtest.

Variable llm : ChatOpenAI.
Variable fmt : Formatting.

(** Writing a dictionary that lacks [user_feedback] and [messages] leaves
    both lists as they were. *)
Lemma merge_user_feedback s u :
  user_feedback (merge s u) = user_feedback s ++ user_feedback u.
Proof. reflexivity. Qed.

Lemma merge_empty s : merge s empty = s.
Proof. destruct s. unfold merge, operator_add; simpl. now rewrite !app_nil_r. Qed.

Lemma last_value_unset {A} (new : option A) : last_value None new = new.
Proof. now destruct new. Qed.

(** The input of [invoke], written to the empty channels, is the input. *)
Lemma merge_input s : merge empty s = s.
Proof.
  destruct s. unfold merge, operator_add.
  cbn [empty messages concept plot characters theme screenplay
       State.market_analysis director_notes critic_feedback user_feedback app].
  now rewrite !last_value_unset.
Qed.

(** *** One pass

    With [concept] present, the run from [develop_plot] executes the chain
    and stops before [handle_user_feedback]. *)

(** Whatever the limit left, a run that comes to [handle_user_feedback]
    stops before it. *)
Lemma run_pauses limit s n done :
  run (graph llm fmt) limit "handle_user_feedback" s n done =
  {| outcome := Interrupted s "handle_user_feedback"; executed := done; calls := n |}.
Proof. destruct limit; reflexivity. Qed.

(** One node of a chain: the node runs, its dictionary is written, and the
    run goes on at the end of its edge. *)
Lemma run_edge g limit cur s n done action next u n' :
  String.eqb cur END = false ->
  existsb (String.eqb cur) (interrupt_before g) = false ->
  lookup cur (nodes (builder g)) = Some action ->
  action s n = Ok (u, n') ->
  lookup cur (branches (builder g)) = None ->
  lookup cur (edges (builder g)) = Some next ->
  run g (S limit) cur s n done =
  run g limit next (merge s u) n' (done ++ [cur]).
Proof.
  intros H1 H2 H3 H4 H5 H6. cbn [run].
  now rewrite H1, H2, H3, H4, H5, H6.
Qed.

(** What a node returns is found by unfolding the node on the state at
    hand. *)
Ltac node_result :=
  lazy [develop_plot create_characters develop_theme write_screenplay
        director_review critic_review market_analysis
        mbind lift getitem ask ret
        concept plot characters theme screenplay critic_feedback];
  reflexivity.

(** One step of a run from a state written out as a record: the node runs,
    and the state is written out again. *)
Ltac run_node :=
  erewrite run_edge;
  [ | reflexivity | reflexivity | reflexivity | node_result | reflexivity | reflexivity ];
  unfold merge;
  cbn [operator_add last_value messages concept plot characters theme
       screenplay State.market_analysis director_notes critic_feedback
       user_feedback dict_plot dict_characters dict_theme dict_screenplay
       dict_market_analysis dict_director_notes dict_critic_feedback];
  rewrite ?app_nil_r.

Tactic Notation "run_chain" integer(k) :=
  cbn [Nat.add]; do k run_node; rewrite run_pauses, <- ?app_assoc; reflexivity.

Lemma run_develop_plot s n done limit c :
  concept s = Some c ->
  let p := invoke_Plot llm n (develop_plot_messages c) in
  let cs := invoke_Characters llm (1 + n) (create_characters_messages p) in
  let t := invoke_Theme llm (2 + n) (develop_theme_messages fmt p cs) in
  let sp := invoke_Screenplay llm (3 + n) (write_screenplay_messages fmt p cs t) in
  let dn := invoke_content llm (4 + n) (director_review_messages fmt sp) in
  let cf := invoke_content llm (5 + n) (critic_review_messages fmt p t sp) in
  let ma := invoke_MarketAnalysis llm (6 + n) (market_analysis_messages fmt p t [cf]) in
  run (graph llm fmt) (7 + limit) "develop_plot" s n done =
  {| outcome := Interrupted
       {| messages := messages s; concept := Some c; plot := Some p;
          characters := Some cs; theme := Some t; screenplay := Some sp;
          State.market_analysis := Some ma; director_notes := Some [dn];
          critic_feedback := Some [cf]; user_feedback := user_feedback s |}
       "handle_user_feedback";
     executed := done ++ ["develop_plot"; "create_characters"; "develop_theme";
                          "write_screenplay"; "director_review"; "critic_review";
                          "market_analysis"];
     calls := 7 + n |}.
Proof.
  intros Hc. destruct s; simpl in Hc; subst. intros. run_chain 7.
Qed.

(** [invoke] on any input that holds a concept, with [n] model calls made
    before: whatever else the input holds, the run is one pass from
    [develop_plot]; the keys the nodes write are written anew, [messages]
    and [user_feedback] are those of the input. *)
Lemma invoke_pass input n c :
  concept input = Some c ->
  let p := invoke_Plot llm n (develop_plot_messages c) in
  let cs := invoke_Characters llm (1 + n) (create_characters_messages p) in
  let t := invoke_Theme llm (2 + n) (develop_theme_messages fmt p cs) in
  let sp := invoke_Screenplay llm (3 + n) (write_screenplay_messages fmt p cs t) in
  let dn := invoke_content llm (4 + n) (director_review_messages fmt sp) in
  let cf := invoke_content llm (5 + n) (critic_review_messages fmt p t sp) in
  let ma := invoke_MarketAnalysis llm (6 + n) (market_analysis_messages fmt p t [cf]) in
  invoke (graph llm fmt) input n =
  {| outcome := Interrupted
       {| messages := messages input; concept := Some c; plot := Some p;
          characters := Some cs; theme := Some t; screenplay := Some sp;
          State.market_analysis := Some ma; director_notes := Some [dn];
          critic_feedback := Some [cf]; user_feedback := user_feedback input |}
       "handle_user_feedback";
     executed := ["develop_plot"; "create_characters"; "develop_theme";
                  "write_screenplay"; "director_review"; "critic_review";
                  "market_analysis"];
     calls := 7 + n |}.
Proof.
  intros Hc. intros.
  change (invoke (graph llm fmt) input n)
    with (run (graph llm fmt) (7 + 18) "develop_plot" (merge empty input) n []).
  rewrite merge_input.
  exact (run_develop_plot input n [] 18 c Hc).
Qed.

(** The first pass: [invoke] on a concept, with [n] model calls made
    before. *)
Lemma invoke_first_pass c n :
  let p := invoke_Plot llm n (develop_plot_messages c) in
  let cs := invoke_Characters llm (1 + n) (create_characters_messages p) in
  let t := invoke_Theme llm (2 + n) (develop_theme_messages fmt p cs) in
  let sp := invoke_Screenplay llm (3 + n) (write_screenplay_messages fmt p cs t) in
  let dn := invoke_content llm (4 + n) (director_review_messages fmt sp) in
  let cf := invoke_content llm (5 + n) (critic_review_messages fmt p t sp) in
  let ma := invoke_MarketAnalysis llm (6 + n) (market_analysis_messages fmt p t [cf]) in
  invoke (graph llm fmt) (dict_concept c) n =
  {| outcome := Interrupted
       {| messages := []; concept := Some c; plot := Some p;
          characters := Some cs; theme := Some t; screenplay := Some sp;
          State.market_analysis := Some ma; director_notes := Some [dn];
          critic_feedback := Some [cf]; user_feedback := [] |}
       "handle_user_feedback";
     executed := ["develop_plot"; "create_characters"; "develop_theme";
                  "write_screenplay"; "director_review"; "critic_review";
                  "market_analysis"];
     calls := 7 + n |}.
Proof. exact (invoke_pass (dict_concept c) n c eq_refl). Qed.

(** What the router answers on the input of a resume call. *)
Lemma route_feedback_fed s fb :
  route_feedback (fed s fb) =
    (let f := lower fb in
     if contains "plot" f then "develop_plot"
     else if contains "character" f then "create_characters"
     else if contains "theme" f then "develop_theme"
     else if contains "screenplay" f then "write_screenplay"
     else END).
Proof. exact (route_feedback_snoc (fed s fb) (user_feedback s) fb eq_refl). Qed.

(** *** What holds at every interrupt of a session *)

Lemma populated_intro s p cs t sp ma dn cf :
  plot s = Some p -> characters s = Some cs -> theme s = Some t ->
  screenplay s = Some sp -> State.market_analysis s = Some ma ->
  director_notes s = Some [dn] -> critic_feedback s = Some [cf] ->
  populated s.
Proof. intros. exists p, cs, t, sp, ma, dn, cf. repeat split; assumption. Qed.

(** Every call of a session is one pass that ends in the interrupt before
    [handle_user_feedback], with every key present; [user_feedback] is the
    list of the strings fed in, in order, and each call has asked the model
    seven times. *)
Lemma session_invariant c fbs r :
  session llm fmt c fbs r ->
  exists s,
    outcome r = Interrupted s "handle_user_feedback" /\ populated s /\
    concept s = Some c /\ user_feedback s = fbs /\
    executed r = one_pass /\ calls r = (7 * S (List.length fbs))%nat.
Proof.
  induction 1 as [|fbs r state next fb Hs IH Hout].
  - rewrite invoke_first_pass.
    eexists. split; [reflexivity|]. split; [eapply populated_intro; reflexivity|].
    repeat split.
  - destruct IH as (s & Hr & _ & Hc & Hfb & _ & Hcalls).
    rewrite Hr in Hout. injection Hout as <- <-.
    rewrite (invoke_pass (fed s fb) (calls r) c Hc).
    eexists. split; [reflexivity|]. split; [eapply populated_intro; reflexivity|].
    cbn [concept user_feedback executed calls fed].
    split; [reflexivity|]. split; [now rewrite Hfb|]. split; [reflexivity|].
    rewrite Hcalls, List.length_app. simpl List.length. lia.
Qed.

(** No node of the graph returns a dictionary with [user_feedback] in it:
    writing what a node returns leaves the list as it was. *)
Lemma nodes_keep_user_feedback key action s n u n' :
  In (key, action) (nodes (workflow llm fmt)) ->
  action s n = Ok (u, n') ->
  user_feedback (merge s u) = user_feedback s.
Proof.
  intros Hin Hrun. rewrite merge_user_feedback.
  enough (user_feedback u = []) as -> by apply app_nil_r.
  simpl in Hin.
  repeat (destruct Hin as [Hin | Hin];
          [injection Hin as _ <-; clear - Hrun; revert Hrun|]);
    try contradiction.
  all: cbv [develop_plot create_characters develop_theme write_screenplay
            director_review critic_review market_analysis handle_user_feedback
            mbind lift getitem ask ret].
  all: repeat match goal with
         | |- context [match ?field with Some _ => _ | None => _ end] =>
             destruct field
         end.
  all: intros Hrun; try discriminate; injection Hrun as <- _; reflexivity.
Qed.

(** C2. Invoked on a state holding a concept only, the engine runs
    [develop_plot] to [market_analysis] once each, in the order of the chain,
    and stops before [handle_user_feedback]; the state it returns has [plot],
    [characters], [theme], [screenplay] and [market_analysis] present, each
    the model's answer to the prompt of its step, and one entry in each of
    [director_notes] and [critic_feedback]. *)
Theorem invoke_runs_one_pass : forall c : string,
  let p := invoke_Plot llm 0 (develop_plot_messages c) in
  let cs := invoke_Characters llm 1 (create_characters_messages p) in
  let t := invoke_Theme llm 2 (develop_theme_messages fmt p cs) in
  let sp := invoke_Screenplay llm 3 (write_screenplay_messages fmt p cs t) in
  let dn := invoke_content llm 4 (director_review_messages fmt sp) in
  let cf := invoke_content llm 5 (critic_review_messages fmt p t sp) in
  let ma := invoke_MarketAnalysis llm 6 (market_analysis_messages fmt p t [cf]) in
  invoke (graph llm fmt) (dict_concept c) 0 =
  {| outcome := Interrupted
       {| messages := []; concept := Some c; plot := Some p;
          characters := Some cs; theme := Some t; screenplay := Some sp;
          State.market_analysis := Some ma; director_notes := Some [dn];
          critic_feedback := Some [cf]; user_feedback := [] |}
       "handle_user_feedback";
     executed := ["develop_plot"; "create_characters"; "develop_theme";
                  "write_screenplay"; "director_review"; "critic_review";
                  "market_analysis"];
     calls := 7 |}.
Proof. intros c. exact (invoke_first_pass c 0). Qed.

(** C3. [user_feedback] only grows.  After a session with one string fed in
    per resume call the list the graph returns is the list of those strings,
    in the order they were fed in, so its length is the number of resume
    calls; no node of the graph changes the list; and a write through the
    channel keeps what was there and puts the written entries behind it. *)
Theorem user_feedback_append_only : forall c fbs r,
  session llm fmt c fbs r ->
  (exists s,
     outcome r = Interrupted s "handle_user_feedback" /\
     user_feedback s = fbs /\
     List.length (user_feedback s) = List.length fbs) /\
  (forall key action s n u n',
     In (key, action) (nodes (workflow llm fmt)) ->
     action s n = Ok (u, n') ->
     user_feedback (merge s u) = user_feedback s) /\
  (forall s u, user_feedback (merge s u) = user_feedback s ++ user_feedback u).
Proof.
  intros c fbs r Hs. split; [|split].
  - destruct (session_invariant c fbs r Hs) as (s & Hout & _ & _ & Hfb & _).
    exists s. split; [exact Hout|]. split; [exact Hfb | now rewrite Hfb].
  - intros key action s n u n'. apply nodes_keep_user_feedback.
  - intros s u. apply merge_user_feedback.
Qed.

(** X2. At every interrupt of a session, however many resume calls came
    before, [director_notes] and [critic_feedback] hold one entry each: the
    entry of the last pass. *)
Theorem review_lists_hold_one_entry : forall c fbs r s next,
  session llm fmt c fbs r ->
  outcome r = Interrupted s next ->
  exists dn cf, director_notes s = Some [dn] /\ critic_feedback s = Some [cf].
Proof.
  intros c fbs r s next Hs Hout.
  destruct (session_invariant c fbs r Hs) as (s0 & Hr & Hpop & _).
  rewrite Hr in Hout. injection Hout as <- <-.
  destruct Hpop as (p & cs & t & sp & ma & dn & cf & _ & _ & _ & _ & _ & Hdn & Hcf).
  now exists dn, cf.
Qed.

(** X4. No call of [invoke] on the compiled graph comes to the router.
    Whatever the input holds and whatever the model answers, the run either
    fails in [develop_plot] on the absent key [concept], or makes one pass
    and stops before [handle_user_feedback]: that node is never executed,
    the run never ends at [END], and the recursion limit is never met.  So
    [route_feedback] is called by no run. *)
Theorem invoke_never_reaches_the_router : forall input n,
  let r := invoke (graph llm fmt) input n in
  ~ In "handle_user_feedback" (executed r) /\
  (forall s, outcome r <> Finished s) /\
  outcome r <> GraphRecursionError /\
  ((concept input = None /\ outcome r = Failed (KeyError "concept") /\
    executed r = []) \/
   (concept input <> None /\ executed r = one_pass /\
    exists s, outcome r = Interrupted s "handle_user_feedback")).
Proof.
  intros input n r. subst r.
  destruct (concept input) as [c|] eqn:Hc.
  - rewrite (invoke_pass input n c Hc). cbn [outcome executed].
    split; [|split; [|split]].
    + simpl. intuition discriminate.
    + discriminate.
    + discriminate.
    + right. split; [discriminate|]. split; [reflexivity|]. eauto.
  - assert (Hrun : invoke (graph llm fmt) input n =
              {| outcome := Failed (KeyError "concept"); executed := []; calls := n |})
      by (destruct input; simpl in Hc; subst; reflexivity).
    rewrite Hrun. cbn [outcome executed].
    split; [|split; [|split]].
    + simpl. tauto.
    + discriminate.
    + discriminate.
    + left. repeat split.
Qed.

(** X5. The concept is never changed: at every interrupt of a session the
    state holds the concept the session began with. *)
Theorem concept_is_kept : forall c fbs r s next,
  session llm fmt c fbs r ->
  outcome r = Interrupted s next ->
  concept s = Some c.
Proof.
  intros c fbs r s next Hs Hout.
  destruct (session_invariant c fbs r Hs) as (s0 & Hr & _ & Hc & _).
  rewrite Hr in Hout. now injection Hout as <- <-.
Qed.

(** X7. Every call of a session is a whole pass, whatever was fed in: it
    executes the seven nodes from [develop_plot] to [market_analysis], and
    after [N] resume calls the model has been asked [7 * (N + 1)] times. *)
Theorem session_calls : forall c fbs r,
  session llm fmt c fbs r ->
  executed r = one_pass /\ calls r = (7 * (List.length fbs + 1))%nat.
Proof.
  intros c fbs r Hs.
  destruct (session_invariant c fbs r Hs) as (s & _ & _ & _ & _ & Hex & Hcalls).
  split; [exact Hex|]. rewrite Hcalls. f_equal. lia.
Qed.

(** X11. Invoked on a dictionary without [concept], the engine stops at
    the first node: [develop_plot] raises [KeyError] on the key, no node has
    run to its end and the model was not asked. *)
Theorem invoke_without_concept_fails : forall input n,
  concept input = None ->
  invoke (graph llm fmt) input n =
  {| outcome := Failed (KeyError "concept"); executed := []; calls := n |}.
Proof.
  intros input n Hc. destruct input; simpl in Hc; subst. reflexivity.
Qed.

End Engine.

Section RouterMore.
Import LGtest.

(** X14. The router names one of the four nodes of its path map or the end
    of the run, and nothing else: the branch never looks up a key it does
    not have, and feedback never restarts a review step or the market
    analysis. *)
Theorem route_feedback_in_path_map : forall s : MovieState,
  In (route_feedback s)
     ["develop_plot"; "create_characters"; "develop_theme"; "write_screenplay"; END].
Proof.
  intros s. unfold route_feedback. destruct (user_feedback s) as [|x l].
  - simpl. tauto.
  - destruct (contains "plot" _); [simpl; tauto|].
    destruct (contains "character" _); [simpl; tauto|].
    destruct (contains "theme" _); [simpl; tauto|].
    destruct (contains "screenplay" _); simpl; tauto.
Qed.

End RouterMore.

Section EngineExamples.
Import LGtest.

(** The runs of the stub sessions, evaluated. *)
Lemma demo_run_outcome :
  outcome demo_run = Interrupted demo_state "handle_user_feedback".
Proof. vm_compute. reflexivity. Qed.

Lemma demo_resumed_outcome :
  outcome demo_resumed = Interrupted demo_state' "handle_user_feedback".
Proof. vm_compute. reflexivity. Qed.

Lemma demo_recast_outcome :
  outcome demo_recast = Interrupted demo_recast_state "handle_user_feedback".
Proof. vm_compute. reflexivity. Qed.

Lemma demo_session :
  session stub_llm stub_fmt "chef" ([] ++ ["tighten the plot"]) demo_resumed.
Proof.
  exact (session_resume stub_llm stub_fmt "chef" [] demo_run demo_state
           "handle_user_feedback" "tighten the plot"
           (session_invoke stub_llm stub_fmt "chef") demo_run_outcome).
Qed.

Lemma user_feedback_append_only_witness :
  exists s,
    outcome demo_resumed = Interrupted s "handle_user_feedback" /\
    user_feedback s = [] ++ ["tighten the plot"] /\
    List.length (user_feedback s) = List.length ([] ++ ["tighten the plot"]).
Proof.
  exact (proj1 (user_feedback_append_only stub_llm stub_fmt "chef"
                  ([] ++ ["tighten the plot"]) demo_resumed demo_session)).
Defined.

Lemma review_lists_hold_one_entry_witness :
  exists dn cf,
    director_notes demo_state' = Some [dn] /\ critic_feedback demo_state' = Some [cf].
Proof.
  exact (review_lists_hold_one_entry stub_llm stub_fmt "chef" _ demo_resumed
           demo_state' "handle_user_feedback" demo_session demo_resumed_outcome).
Defined.

Lemma concept_is_kept_witness : concept demo_state' = Some "chef".
Proof.
  exact (concept_is_kept stub_llm stub_fmt "chef" _ demo_resumed demo_state'
           "handle_user_feedback" demo_session demo_resumed_outcome).
Defined.

Lemma session_calls_witness :
  executed demo_resumed = one_pass /\
  calls demo_resumed = (7 * (List.length ([] ++ ["tighten the plot"]) + 1))%nat.
Proof.
  exact (session_calls stub_llm stub_fmt "chef" _ demo_resumed demo_session).
Defined.

Lemma invoke_without_concept_fails_witness :
  invoke (graph stub_llm stub_fmt) (dict_user_feedback ["a plot, please"]) 0 =
  {| outcome := Failed (KeyError "concept"); executed := []; calls := 0 |}.
Proof.
  exact (invoke_without_concept_fails stub_llm stub_fmt
           (dict_user_feedback ["a plot, please"]) 0 eq_refl).
Defined.

(** C4, evaluated.  With the stub model, the first pass leaves the note
    [review#4] and the critique [review#5]; after a resume call, which runs
    [director_review] and [critic_review] again on the state that holds
    them, [director_notes] and [critic_feedback] hold the entry of the
    second pass alone: the earlier entries are gone.  Neither key has a
    reducer, so a write replaces the list. *)
Theorem review_lists_are_overwritten :
  director_notes demo_state = Some ["review#4"] /\
  critic_feedback demo_state = Some ["review#5"] /\
  director_notes (fed demo_state "tighten the plot") = Some ["review#4"] /\
  critic_feedback (fed demo_state "tighten the plot") = Some ["review#5"] /\
  outcome demo_resumed = Interrupted demo_state' "handle_user_feedback" /\
  executed demo_resumed =
    ["develop_plot"; "create_characters"; "develop_theme";
     "write_screenplay"; "director_review"; "critic_review"; "market_analysis"] /\
  director_notes demo_state' = Some ["review#11"] /\
  critic_feedback demo_state' = Some ["review#12"] /\
  (forall s old new, director_notes s = Some old ->
     director_notes (merge s (dict_director_notes [new])) = Some [new]) /\
  (forall s old new, critic_feedback s = Some old ->
     critic_feedback (merge s (dict_critic_feedback [new])) = Some [new]).
Proof.
  split; [vm_compute; reflexivity|].
  split; [vm_compute; reflexivity|].
  split; [vm_compute; reflexivity|].
  split; [vm_compute; reflexivity|].
  split; [exact demo_resumed_outcome|].
  split; [vm_compute; reflexivity|].
  split; [vm_compute; reflexivity|].
  split; [vm_compute; reflexivity|].
  split; reflexivity.
Qed.

(** C5, evaluated.  For feedback with "character" and without "plot" the
    router names [create_characters], and no node from there on writes
    [plot].  But the router is not reached: the graph is compiled without a
    checkpointer, so the resume call is a new run from [START].  With the
    stub model, the resume call with "More CHARACTER depth" executes
    [develop_plot] first and the whole chain after it, never
    [handle_user_feedback]; the plot of the first pass, the answer to call 0,
    is replaced by the answer to call 7.  The same holds at every interrupt
    of every session, for every feedback and every model. *)
Theorem resume_call_restarts_at_develop_plot :
  route_feedback (fed demo_state "More CHARACTER depth") = "create_characters" /\
  outcome demo_recast = Interrupted demo_recast_state "handle_user_feedback" /\
  executed demo_recast =
    ["develop_plot"; "create_characters"; "develop_theme";
     "write_screenplay"; "director_review"; "critic_review"; "market_analysis"] /\
  calls demo_run = 7%nat /\ calls demo_recast = 14%nat /\
  option_map synopsis (plot demo_state) = Some "synopsis#0" /\
  option_map synopsis (plot demo_recast_state) = Some "synopsis#7" /\
  plot demo_recast_state <> plot demo_state /\
  user_feedback demo_recast_state = ["More CHARACTER depth"] /\
  (forall s fb,
     contains "character" (lower fb) = true -> contains "plot" (lower fb) = false ->
     route_feedback (fed s fb) = "create_characters") /\
  (forall llm fmt c fbs r s next fb,
     session llm fmt c fbs r ->
     outcome r = Interrupted s next ->
     let n := calls r in
     let p := invoke_Plot llm n (develop_plot_messages c) in
     let cs := invoke_Characters llm (1 + n) (create_characters_messages p) in
     let t := invoke_Theme llm (2 + n) (develop_theme_messages fmt p cs) in
     let sp := invoke_Screenplay llm (3 + n) (write_screenplay_messages fmt p cs t) in
     let dn := invoke_content llm (4 + n) (director_review_messages fmt sp) in
     let cf := invoke_content llm (5 + n) (critic_review_messages fmt p t sp) in
     let ma := invoke_MarketAnalysis llm (6 + n) (market_analysis_messages fmt p t [cf]) in
     invoke (graph llm fmt) (fed s fb) n =
     {| outcome := Interrupted
          {| messages := messages s; concept := Some c; plot := Some p;
             characters := Some cs; theme := Some t; screenplay := Some sp;
             State.market_analysis := Some ma; director_notes := Some [dn];
             critic_feedback := Some [cf]; user_feedback := user_feedback s ++ [fb] |}
          "handle_user_feedback";
        executed := ["develop_plot"; "create_characters"; "develop_theme";
                     "write_screenplay"; "director_review"; "critic_review";
                     "market_analysis"];
        calls := 7 + n |}).
Proof.
  split; [vm_compute; reflexivity|].
  split; [exact demo_recast_outcome|].
  split; [vm_compute; reflexivity|].
  split; [vm_compute; reflexivity|].
  split; [vm_compute; reflexivity|].
  split; [vm_compute; reflexivity|].
  split; [vm_compute; reflexivity|].
  split; [vm_compute; discriminate|].
  split; [vm_compute; reflexivity|].
  split.
  - intros s fb Hchar Hplot. rewrite route_feedback_fed. cbv zeta.
    now rewrite Hplot, Hchar.
  - intros llm fmt c fbs r s next fb Hs Hout.
    destruct (session_invariant llm fmt c fbs r Hs) as (s0 & Hr & _ & Hc & _).
    rewrite Hr in Hout. injection Hout as <- <-.
    exact (invoke_pass llm fmt (fed s0 fb) (calls r) c Hc).
Qed.

End EngineExamples.

(* ===================================================================== *)
(** * FaceRecog.py: what [SelfieAuth] returns and what it lets through    *)
(* ===================================================================== *)

Section FaceMatch.
Import FaceRecog.

Variable Image : Type.
Variable Encoding : Type.
Variable load_image_file : string -> Py.result Image.
Variable face_encodings : Image -> Py.result (list Encoding).
Variable compare_faces : list Encoding -> Encoding -> Py.result (list bool).

Abbreviation SelfieAuth :=
  (FaceRecog.SelfieAuth Image Encoding load_image_file face_encodings compare_faces).
Abbreviation encodings := (FaceRecog.encodings Image Encoding face_encodings).

(** When the body of the [try] raises: the first encoding call raises or
    finds no face, or it finds one and the second call raises or finds
    none. *)
Lemma encodings_raise a b e :
  encodings a b = Raise e <->
  face_encodings a = Raise e \/
  (face_encodings a = Ok [] /\ e = IndexError "list index out of range") \/
  (exists x l, face_encodings a = Ok (x :: l) /\
     (face_encodings b = Raise e \/
      (face_encodings b = Ok [] /\ e = IndexError "list index out of range"))).
Proof.
  unfold FaceRecog.encodings, bind, first.
  destruct (face_encodings a) as [[|x l]|ea].
  - split.
    + intros [= <-]. right; left. now split.
    + intros [H | [[_ ->] | (x & l & H & _)]]; [discriminate | reflexivity | discriminate].
  - destruct (face_encodings b) as [[|y l']|eb].
    + split.
      * intros [= <-]. right; right. exists x, l. split; [reflexivity|]. right. now split.
      * intros [H | [[H _] | (x' & l0 & _ & [H | [_ ->]])]];
          [discriminate | discriminate | discriminate | reflexivity].
    + split; [discriminate|].
      intros [H | [[H _] | (x' & l0 & _ & [H | [H _]])]]; discriminate.
    + split.
      * intros [= <-]. right; right. exists x, l. split; [reflexivity|]. now left.
      * intros [H | [[H _] | (x' & l0 & _ & [H | [H _]])]];
          [discriminate | discriminate | now injection H as -> | discriminate].
  - split.
    + intros [= <-]. now left.
    + intros [H | [[H _] | (x & l & H & _)]];
        [now injection H as -> | discriminate | discriminate].
Qed.

(** X1. With both images loaded and no face found on one of them, the
    call raises nothing and returns [False]. *)
Theorem SelfieAuth_no_face : forall auth_image new_image a b,
  load_image_file auth_image = Ok a ->
  load_image_file new_image = Ok b ->
  face_encodings a = Ok [] \/ face_encodings b = Ok [] ->
  fst (SelfieAuth auth_image new_image) = Ok (Bool false).
Proof.
  intros auth_image new_image a b Ha Hb Hnone. unfold FaceRecog.SelfieAuth. rewrite Ha, Hb.
  destruct (encodings a b) as [[ua sb]|e] eqn:He; [|reflexivity].
  exfalso. unfold FaceRecog.encodings, bind, first in He.
  destruct (face_encodings a) as [[|x l]|ea]; try discriminate.
  destruct Hnone as [H | H]; [discriminate|].
  rewrite H in He. discriminate.
Qed.

(** C10. The handler of [SelfieAuth] is not tied to a missing face: with
    both images loaded, whatever exception the body of the [try] raises (in
    the first encoding call, or in the second after the first has found a
    face, or from [[0]] on an empty list) ends in the result [False], with
    the exception printed and the picture shown.  An exception of either
    load, or of the comparison after both encodings were found, is the
    outcome of the call. *)
Theorem SelfieAuth_handler_is_general : forall auth_image new_image : string,
  (forall e, load_image_file auth_image = Raise e ->
     SelfieAuth auth_image new_image = (Raise e, [])) /\
  (forall a e, load_image_file auth_image = Ok a ->
     load_image_file new_image = Raise e ->
     SelfieAuth auth_image new_image = (Raise e, [])) /\
  (forall a b e, load_image_file auth_image = Ok a ->
     load_image_file new_image = Ok b ->
     (face_encodings a = Raise e \/
      exists x l, face_encodings a = Ok (x :: l) /\ face_encodings b = Raise e) ->
     SelfieAuth auth_image new_image =
       (Ok (Bool false), [Printed e; Displayed new_image])) /\
  (forall a b user_encoding selfie_encoding e,
     load_image_file auth_image = Ok a ->
     load_image_file new_image = Ok b ->
     encodings a b = Ok (user_encoding, selfie_encoding) ->
     compare_faces [user_encoding] selfie_encoding = Raise e ->
     SelfieAuth auth_image new_image = (Raise e, [])).
Proof.
  intros auth_image new_image. unfold FaceRecog.SelfieAuth. repeat split.
  - intros e ->. reflexivity.
  - intros a e -> ->. reflexivity.
  - intros a b e -> -> Hraise.
    assert (He : encodings a b = Raise e).
    { apply encodings_raise. destruct Hraise as [H | (x & l & H1 & H2)];
        [now left | right; right; exists x, l; split; [exact H1 | now left]]. }
    now rewrite He.
  - intros a b ua sb e -> -> -> ->. reflexivity.
Qed.

(** The call never returns [True]: its only boolean is the [False] of the
    handler, and a comparison comes back as the list [compare_faces] made. *)
Lemma SelfieAuth_never_True auth_image new_image :
  fst (SelfieAuth auth_image new_image) <> Ok (Bool true).
Proof.
  unfold FaceRecog.SelfieAuth.
  destruct (load_image_file auth_image); [|discriminate].
  destruct (load_image_file new_image); [|discriminate].
  destruct (encodings _ _) as [[ua sb]|]; [|discriminate].
  destruct (compare_faces _ _); discriminate.
Qed.

End FaceMatch.

Section FaceMatchExamples.
Import FaceRecog.

Abbreviation stub_auth := (FaceRecog.SelfieAuth (list nat) nat stub_load stub_encodings stub_compare).

Lemma SelfieAuth_no_face_witness :
  fst (stub_auth "two.jpg" "empty.jpg") = Ok (Bool false).
Proof.
  exact (SelfieAuth_no_face (list nat) nat stub_load stub_encodings stub_compare
           "two.jpg" "empty.jpg" [1; 2]%nat [] eq_refl eq_refl (or_intror eq_refl)).
Defined.

Lemma SelfieAuth_handler_is_general_witness :
  stub_auth "missing.jpg" "one.jpg"
  = (Raise (OtherError "FileNotFoundError" "missing.jpg"), []).
Proof.
  exact (proj1 (SelfieAuth_handler_is_general (list nat) nat stub_load stub_encodings
                  stub_compare "missing.jpg" "one.jpg")
           (OtherError "FileNotFoundError" "missing.jpg") eq_refl).
Defined.

(** C6, evaluated.  With no face on the second picture the call returns
    [False] and raises nothing.  With a face on each, it returns the list of
    [compare_faces]: [[True]] for the same face, [[False]] for another; the
    value is not the boolean in the list, and the list [[False]] is not
    [False].  For no library and no pictures does the call return [True]. *)
Theorem SelfieAuth_returns_the_list :
  stub_auth "one.jpg" "empty.jpg"
    = (Ok (Bool false),
       [Printed (IndexError "list index out of range"); Displayed "empty.jpg"]) /\
  stub_auth "empty.jpg" "one.jpg"
    = (Ok (Bool false),
       [Printed (IndexError "list index out of range"); Displayed "one.jpg"]) /\
  stub_auth "one.jpg" "two.jpg" = (Ok (BoolList [true]), [Displayed "two.jpg"]) /\
  stub_auth "one.jpg" "other.jpg" = (Ok (BoolList [false]), [Displayed "other.jpg"]) /\
  fst (stub_auth "one.jpg" "other.jpg") <> Ok (Bool false) /\
  (forall Image Encoding load_image_file face_encodings compare_faces auth_image new_image,
     fst (FaceRecog.SelfieAuth Image Encoding load_image_file face_encodings
            compare_faces auth_image new_image) <> Ok (Bool true)).
Proof.
  repeat split; try discriminate. exact SelfieAuth_never_True.
Qed.

End FaceMatchExamples.

(* ===================================================================== *)
(** * FRT2.py and FRT3.py: the thumbnails                                 *)
(* ===================================================================== *)

Section Thumbnails.

Local Open Scope Z_scope.

(** [int(n * 50 / 100)] and [int(n / 2)] are the floor of the half of a
    dimension. *)
Lemma int_of_percent n : 0 <= n -> int_of (truediv (n * 50) 100) = n / 2.
Proof.
  intros Hn. unfold int_of, truediv. cbn.
  rewrite Z.mul_1_r, Z.quot_div_nonneg by lia.
  change 100 with (2 * 50). apply Z.div_mul_cancel_r; lia.
Qed.

Lemma int_of_half n : 0 <= n -> int_of (truediv n 2) = n / 2.
Proof.
  intros Hn. unfold int_of, truediv. cbn.
  rewrite Z.mul_1_r. apply Z.quot_div_nonneg; lia.
Qed.

(** C7. For an image of width [W] and height [H], both positive, the two
    scripts ask for a resize to [(W / 2, H / 2)], [/] being the division that
    rounds down: [FRT2.reformat_image] through [dim], [FRT3.resize] through
    the size it hands to [cv2.resize]. *)
Theorem resize_halves_by_truncation :
  forall (Image : Type) (shape0 shape1 : Image -> Z) (img : Image),
  0 < shape1 img -> 0 < shape0 img ->
  FRT2.dim_of Image shape0 shape1 img = (shape1 img / 2, shape0 img / 2) /\
  FRT3.dsize_of Image shape0 shape1 img = (shape1 img / 2, shape0 img / 2).
Proof.
  intros Image shape0 shape1 img HW HH.
  unfold FRT2.dim_of, FRT3.dsize_of, FRT2.scale_percent.
  now rewrite !int_of_percent, !int_of_half by lia.
Qed.

End Thumbnails.

(** An image of width 3 and height 5 is resized to 1 by 2: the halves 1.5
    and 2.5 are cut, not rounded. *)
Lemma resize_halves_by_truncation_witness :
  FRT2.dim_of (Z * Z) fst snd (5, 3)%Z = (1, 2)%Z /\
  FRT3.dsize_of (Z * Z) fst snd (5, 3)%Z = (1, 2)%Z.
Proof.
  exact (resize_halves_by_truncation (Z * Z) fst snd (5, 3)%Z eq_refl eq_refl).
Defined.

Section Thumbnail3.

Variable Image : Type.
Variable shape0 shape1 : Image -> Z.
Variable mkstemp : string -> result string.
Variable download_to_filename : string -> string -> string -> result unit.
Variable imread : string -> option Image.
Variable cv2_resize : Image -> Z * Z -> result Image.
Variable imwrite : string -> Image -> result bool.
Variable upload_from_filename : string -> string -> string -> result unit.
Variable remove : string -> result unit.

Abbreviation main :=
  (FRT3.main Image shape0 shape1 mkstemp download_to_filename imread cv2_resize
     imwrite upload_from_filename remove).
Abbreviation dsize_of := (FRT3.dsize_of Image shape0 shape1).
Abbreviation before_upload := (FRT3.before_upload Image shape0 shape1).

Lemma prefixed_name_has_no_sep b :
  rfind sep b = None -> rfind sep (FRT3.NEW_FILE_PREFIX ++ b) = None.
Proof. intros Hb. unfold FRT3.NEW_FILE_PREFIX. simpl. now rewrite Hb. Qed.

(** The thumbnail of a blob lies in the directory of the blob, under the
    file name of the blob behind the prefix. *)
Lemma new_file_name_split blob_name :
  os_path_split (FRT3.new_file_name_of blob_name) =
  (fst (os_path_split blob_name),
   (FRT3.NEW_FILE_PREFIX ++ snd (os_path_split blob_name))%string).
Proof.
  unfold FRT3.new_file_name_of.
  destruct (os_path_split_spec blob_name) as [Hd Ht].
  destruct (os_path_split blob_name) as [d b]. cbn [fst snd] in *.
  apply os_path_split_join; [exact Hd | now apply prefixed_name_has_no_sep].
Qed.


(** X18. The function does not answer its own upload: on the event of the
    thumbnail it has stored, [main] says that the blob is resized already
    and makes no other call. *)
Theorem main_skips_its_own_upload : forall event : FRT3.Event,
  let stored := FRT3.new_file_name_of (FRT3.name event) in
  main {| FRT3.bucket := FRT3.bucket event; FRT3.name := stored |} =
  (Ok tt, [FRT3.printed Image ("Blob " ++ stored ++ " is already resized.")%string]).
Proof.
  intros event stored. unfold FRT3.main. cbn [FRT3.name FRT3.bucket].
  subst stored. rewrite new_file_name_split.
  change FRT3.NEW_FILE_PREFIX with "thumbnail_".
  assert (Hpre : forall b, startswith ("thumbnail_" ++ b) "thumbnail_" = true)
    by (intros b; simpl; now destruct b).
  now rewrite Hpre.
Qed.

(** X25. The temporary file is removed at the end of a run in which
    every call before has returned, the upload among them, and in no other:
    nothing guards [os.remove], so a run that raises on the way leaves its
    temporary file behind.  What [main] returns or raises after the
    removal is what [os.remove] did. *)
Theorem main_removes_only_at_the_end : forall (event : FRT3.Event) (f : string),
  In (FRT3.call_remove Image f) (snd (main event)) ->
  let name := FRT3.name event in
  let bucket := FRT3.bucket event in
  startswith (snd (os_path_split name)) "thumbnail_" = false /\
  fst (main event) = remove f /\
  exists img dst w,
    mkstemp (snd (os_path_splitext name)) = Ok f /\
    download_to_filename bucket name f = Ok tt /\
    imread f = Some img /\
    cv2_resize img (dsize_of img) = Ok dst /\
    imwrite f dst = Ok w /\
    upload_from_filename bucket (FRT3.new_file_name_of name) f = Ok tt.
Proof.
  intros event f. cbv zeta.
  unfold FRT3.main, FRT3.download, FRT3.resize, FRT3.upload, FRT3.new_file_name_of.
  destruct (os_path_split (FRT3.name event)) as [d b]. cbn [fst snd].
  destruct (startswith b FRT3.NEW_FILE_PREFIX) eqn:Hpre.
  { simpl. intuition discriminate. }
  change FRT3.NEW_FILE_PREFIX with "thumbnail_" in *.
  unfold FRT3.andthen, FRT3.called, FRT3.print, FRT3.done, FRT3.shape_of.
  destruct (os_path_splitext (FRT3.name event)) as [root ext]. cbn [snd].
  destruct (mkstemp ext) as [temp|e] eqn:Htemp; [|simpl; intuition discriminate].
  destruct (download_to_filename _ _ temp) as [[]|e] eqn:Hdown;
    [|simpl; intuition discriminate].
  destruct (imread temp) as [img|] eqn:Hread; [|simpl; intuition discriminate].
  destruct (cv2_resize img _) as [dst|e] eqn:Hresize; [|simpl; intuition discriminate].
  destruct (imwrite temp dst) as [w|e] eqn:Hwrite; [|simpl; intuition discriminate].
  destruct (upload_from_filename _ _ temp) as [[]|e] eqn:Hup;
    [|simpl; intuition discriminate].
  destruct (remove temp) as [[]|e] eqn:Hrm.
  all: cbn [fst snd app In]; intros Hin.
  all: repeat (destruct Hin as [Hin | Hin]; [try discriminate Hin|]);
    try contradiction.
  all: injection Hin as <-.
  all: split; [exact Hpre|]; split; [now rewrite Hrm|]; exists img, dst, w.
  all: repeat split; assumption.
Qed.

End Thumbnail3.


Lemma main_removes_only_at_the_end_witness :
  FRT3.stub_mkstemp (snd (os_path_splitext "a/b/cat.png")) = Ok "/tmp/tmp1.png" /\
  fst (FRT3.stub_main {| FRT3.bucket := "photos"; FRT3.name := "a/b/cat.png" |})
  = FRT3.stub_remove "/tmp/tmp1.png".
Proof.
  destruct (main_removes_only_at_the_end (Z * Z) fst snd FRT3.stub_mkstemp
              FRT3.stub_transfer FRT3.stub_imread FRT3.stub_resize
              FRT3.stub_imwrite FRT3.stub_transfer FRT3.stub_remove
              {| FRT3.bucket := "photos"; FRT3.name := "a/b/cat.png" |}
              "/tmp/tmp1.png")
    as (_ & Hend & img & dst & w & Htemp & _).
  - vm_compute. tauto.
  - split; [exact Htemp | exact Hend].
Defined.


Section Thumbnail2.

Variable Bytes : Type.
Variable Image : Type.
Variable shape0 shape1 : Image -> Z.
Variable download_as_string : string -> string -> Bytes.
Variable imdecode : Bytes -> Image.
Variable cv2_resize : Image -> Z * Z -> Image.
Variable temp_name : string.

Abbreviation reformat_image :=
  (FRT2.reformat_image Bytes Image shape0 shape1 download_as_string imdecode
     cv2_resize temp_name).

Lemma environ_get_unset env key default :
  (forall v, ~ In (key, v) env) -> FRT2.environ_get env key default = default.
Proof.
  induction env as [|[k v] env IH]; intros Hun; simpl; [reflexivity|].
  destruct (String.eqb k key) eqn:Hk.
  - apply String.eqb_eq in Hk as ->. exfalso. apply (Hun v). now left.
  - apply IH. intros v' Hin. apply (Hun v'). now right.
Qed.

(** C9. With [PROCESSED_BUCKET_NAME] not in the environment, reading the
    name raises nothing: the name is the placeholder text, and the function
    goes on to ask the storage client for a bucket of that name, after the
    six calls that read, resize and write the image, and to upload to it. *)
Theorem unset_bucket_name_is_placeholder : forall (event : FRT2.Event) (env : FRT2.Environ),
  (forall v, ~ In ("PROCESSED_BUCKET_NAME", v) env) ->
  let placeholder := "Specified environment variable is not set." in
  FRT2.dest_bucket_name_of env = placeholder /\
  List.length (reformat_image event env) = 9%nat /\
  nth_error (reformat_image event env) 6 = Some (FRT2.get_bucket Bytes Image placeholder) /\
  nth_error (reformat_image event env) 8 =
    Some (FRT2.upload_from_filename Bytes Image placeholder (FRT2.name event)
            (temp_name ++ FRT2.name event)%string).
Proof.
  intros event env Hun placeholder.
  assert (Hname : FRT2.dest_bucket_name_of env = placeholder)
    by (apply environ_get_unset; exact Hun).
  unfold FRT2.reformat_image. rewrite Hname. repeat split.
Qed.

End Thumbnail2.

Lemma unset_bucket_name_is_placeholder_witness :
  FRT2.dest_bucket_name_of [("HOME", "/root")]
  = "Specified environment variable is not set.".
Proof.
  refine (proj1 (unset_bucket_name_is_placeholder unit unit (fun _ => 4%Z) (fun _ => 6%Z)
                   (fun _ _ => tt) (fun _ => tt) (fun _ _ => tt) "/tmp/tmp2"
                   {| FRT2.bucket := "photos"; FRT2.name := "cat.png" |}
                   [("HOME", "/root")] _)).
  intros v [H | []]. discriminate H.
Defined.

(* ===================================================================== *)
(** * FaceRecog.py: which faces are compared, what is shown               *)
(* ===================================================================== *)

Section FaceMatchMore.
Import FaceRecog.

Variable Image : Type.
Variable Encoding : Type.
Variable load_image_file : string -> Py.result Image.
Variable face_encodings : Image -> Py.result (list Encoding).
Variable compare_faces : list Encoding -> Encoding -> Py.result (list bool).

Abbreviation SelfieAuth :=
  (FaceRecog.SelfieAuth Image Encoding load_image_file face_encodings compare_faces).

(** X15. Only the first face of each picture counts: with both pictures
    loaded and a face found on each, the call is the comparison of the first
    encoding of the one against the first encoding of the other, whatever
    other faces the pictures show; it returns the list of the comparison and
    shows the second picture, or raises what the comparison raises. *)
Theorem SelfieAuth_compares_first_faces :
  forall auth_image new_image a b x others y others',
  load_image_file auth_image = Ok a ->
  load_image_file new_image = Ok b ->
  face_encodings a = Ok (x :: others) ->
  face_encodings b = Ok (y :: others') ->
  SelfieAuth auth_image new_image =
  match compare_faces [x] y with
  | Ok matches => (Ok (BoolList matches), [Displayed new_image])
  | Raise e => (Raise e, [])
  end.
Proof.
  intros auth_image new_image a b x others y others' Ha Hb Hx Hy.
  unfold FaceRecog.SelfieAuth, FaceRecog.encodings, bind, first.
  now rewrite Ha, Hb, Hx, Hy.
Qed.

(** X16. What the call shows: when it returns, the second picture, once
    and last, after the line of the handler if the handler ran; the first
    picture is not shown for its own sake.  When it raises, nothing was
    printed or shown. *)
Theorem SelfieAuth_shows_the_selfie : forall auth_image new_image,
  match fst (SelfieAuth auth_image new_image) with
  | Ok (Bool _) =>
      exists e, snd (SelfieAuth auth_image new_image) = [Printed e; Displayed new_image]
  | Ok (BoolList _) =>
      snd (SelfieAuth auth_image new_image) = [Displayed new_image]
  | Raise _ => snd (SelfieAuth auth_image new_image) = []
  end.
Proof.
  intros auth_image new_image. unfold FaceRecog.SelfieAuth.
  destruct (load_image_file auth_image) as [a|]; [|reflexivity].
  destruct (load_image_file new_image) as [b|]; [|reflexivity].
  destruct (FaceRecog.encodings _ _ _ a b) as [[x y]|e]; [|now exists e].
  destruct (compare_faces [x] y); reflexivity.
Qed.

End FaceMatchMore.

Section FaceMatchMoreExamples.
Import FaceRecog.

Lemma SelfieAuth_compares_first_faces_witness :
  FaceRecog.SelfieAuth (list nat) nat stub_load stub_encodings stub_compare
    "two.jpg" "one.jpg"
  = (Ok (BoolList [true]), [Displayed "one.jpg"]).
Proof.
  exact (SelfieAuth_compares_first_faces (list nat) nat stub_load stub_encodings
           stub_compare "two.jpg" "one.jpg" [1; 2]%nat [1]%nat 1%nat [2]%nat 1%nat []
           eq_refl eq_refl eq_refl eq_refl).
Defined.

End FaceMatchMoreExamples.

(* ===================================================================== *)
(** * FRT3.py and FRT2.py: names, extensions, sizes, destinations         *)
(* ===================================================================== *)

Section MorePathFacts.

Lemma str_app_assoc a b c : ((a ++ b) ++ c)%string = (a ++ b ++ c)%string.
Proof. induction a as [|x a IH]; simpl; [reflexivity | now rewrite IH]. Qed.

Lemma str_app_nil_r a : (a ++ "")%string = a.
Proof. induction a as [|x a IH]; simpl; [reflexivity | now rewrite IH]. Qed.

Lemma take_drop i p : (take i p ++ drop i p)%string = p.
Proof.
  revert p. induction i as [|i IH]; intros [|x p]; simpl; try reflexivity.
  now rewrite IH.
Qed.

Lemma rfind_drop_none c i p : rfind c p = None -> rfind c (drop i p) = None.
Proof.
  revert p. induction i as [|i IH]; intros [|x p]; simpl; try (intros H; exact H).
  destruct (rfind c p) eqn:Hp; [discriminate|]. intros _. now apply IH.
Qed.

Lemma rfind_app_some c a b k :
  rfind c b = Some k -> rfind c (a ++ b) = Some (String.length a + k)%nat.
Proof.
  intros Hb. induction a as [|x a IH]; simpl; [exact Hb | now rewrite IH].
Qed.

Lemma take_app_more a b k :
  take (String.length a + k) (a ++ b) = (a ++ take k b)%string.
Proof. induction a as [|x a IH]; simpl; [reflexivity | now rewrite IH]. Qed.

Lemma drop_app_more a b k : drop (String.length a + k) (a ++ b) = drop k b.
Proof. induction a as [|x a IH]; simpl; [reflexivity | exact IH]. Qed.

Lemma repeat_snoc c n :
  repeat_char c (S n) = (repeat_char c n ++ String c "")%string.
Proof. induction n as [|n IH]; [reflexivity|]. simpl in *. now rewrite <- IH. Qed.

(** [rstrip] does not reach into a text that ends in another character. *)
Lemma rstrip_app_keep c s t d :
  last_char s = Some d -> d <> c -> rstrip c (s ++ t) = (s ++ rstrip c t)%string.
Proof.
  intros Hlast Hne. induction s as [|x r IH]; [discriminate|].
  destruct r as [|y r'].
  - simpl in Hlast. injection Hlast as ->. simpl.
    apply Ascii.eqb_neq in Hne. rewrite Hne. now destruct (rstrip c t).
  - change (rstrip c (String x (String y r') ++ t))
      with (match rstrip c (String y r' ++ t) with
            | "" => if Ascii.eqb x c then "" else String x ""
            | r'' => String x r''
            end).
    rewrite IH by exact Hlast. reflexivity.
Qed.

Lemma last_char_app_cons a x b : last_char (a ++ String x b) = last_char (String x b).
Proof.
  induction a as [|y a IH]; [reflexivity|].
  change (last_char (String y (a ++ String x b)) = last_char (String x b)).
  rewrite last_char_cons; [exact IH | now destruct a].
Qed.

(** A text with a character other than [c] is not a run of [c]. *)
Lemma not_a_run c s t d n :
  last_char s = Some d -> d <> c -> (s ++ t)%string <> repeat_char c n.
Proof.
  intros Hlast Hne Heq.
  pose proof (rstrip_app_keep c s t d Hlast Hne) as Hstrip.
  rewrite Heq, rstrip_repeat in Hstrip. destruct s; discriminate.
Qed.

(** [os.path.split] of a name without separator, of a name under the
    root, and of a name under a directory, whatever the number of
    separators between directory and file. *)
Lemma os_path_split_plain b : rfind sep b = None -> os_path_split b = ("", b).
Proof. intros Hb. unfold os_path_split. rewrite Hb. simpl. now destruct b. Qed.

Lemma os_path_split_root n b :
  rfind sep b = None ->
  os_path_split (repeat_char sep (S n) ++ b) = (repeat_char sep (S n), b).
Proof.
  intros Hb. unfold os_path_split.
  rewrite (rfind_app_none sep _ _ Hb), rfind_repeat.
  pose proof (take_app (repeat_char sep (S n)) b) as Htake.
  pose proof (drop_app (repeat_char sep (S n)) b) as Hdrop.
  rewrite length_repeat in Htake, Hdrop. rewrite Htake, Hdrop.
  now rewrite length_repeat, String.eqb_refl, andb_false_r.
Qed.

Lemma os_path_split_directory d x n b :
  last_char d = Some x -> x <> sep -> rfind sep b = None ->
  os_path_split (d ++ repeat_char sep (S n) ++ b) = (d, b).
Proof.
  intros Hlast Hx Hb.
  assert (Hname : (d ++ repeat_char sep (S n) ++ b)%string
                  = ((d ++ repeat_char sep n) ++ String sep b)%string).
  { rewrite repeat_snoc, !str_app_assoc. reflexivity. }
  rewrite Hname. unfold os_path_split.
  rewrite (rfind_app_found sep _ _ Hb), take_app_cut, drop_app_cut.
  assert (Hhead : ((d ++ repeat_char sep n) ++ String sep "")%string
                  = (d ++ repeat_char sep (S n))%string).
  { rewrite repeat_snoc, str_app_assoc. reflexivity. }
  rewrite Hhead.
  destruct (String.eqb (d ++ repeat_char sep (S n)) "") eqn:He.
  { apply String.eqb_eq in He. destruct d; discriminate. }
  destruct (String.eqb (d ++ repeat_char sep (S n))
              (repeat_char sep (String.length (d ++ repeat_char sep (S n))))) eqn:Hall.
  { apply String.eqb_eq in Hall. now apply not_a_run with (d := x) in Hall. }
  cbn [negb andb].
  now rewrite (rstrip_app_keep sep d _ x Hlast Hx), rstrip_repeat, str_app_nil_r.
Qed.

(** [os.path.splitext]: the two parts make up the path, and the extension
    holds no separator and, if it is there, one dot, in front. *)
Lemma os_path_splitext_spec p :
  (fst (os_path_splitext p) ++ snd (os_path_splitext p))%string = p /\
  rfind sep (snd (os_path_splitext p)) = None /\
  (snd (os_path_splitext p) = "" \/
   exists e, snd (os_path_splitext p) = String extsep e /\ rfind extsep e = None).
Proof.
  unfold os_path_splitext.
  destruct (rfind extsep p) as [dotIndex|] eqn:Hdot;
    [|cbn [fst snd]; rewrite str_app_nil_r; repeat split; now left].
  destruct (_ && _) eqn:Hcond;
    [|cbn [fst snd]; rewrite str_app_nil_r; repeat split; now left].
  cbn [fst snd]. apply andb_prop in Hcond as [Hle _]. apply Nat.leb_le in Hle.
  split; [apply take_drop|]. split.
  - destruct (rfind sep p) as [k|] eqn:Hsep; [|now apply rfind_drop_none].
    destruct (rfind_found sep p k Hsep) as (a & b & -> & <- & Hb).
    replace dotIndex with (String.length a + S (dotIndex - S (String.length a)))%nat
      by lia.
    rewrite drop_app_more. cbn [drop]. now apply rfind_drop_none.
  - right. destruct (rfind_found extsep p dotIndex Hdot) as (a & b & -> & <- & Hb).
    rewrite drop_app. now exists b.
Qed.

(** The place of a character that ends the text, and the bound on the
    place of any character found. *)
Lemma rfind_last c s :
  last_char s = Some c -> rfind c s = Some (String.length s - 1)%nat.
Proof.
  induction s as [|a r IH]; [discriminate|]. destruct r as [|b r'].
  - simpl. intros [= ->]. now rewrite Ascii.eqb_refl.
  - intros Hlast. change (last_char (String b r') = Some c) in Hlast.
    change (rfind c (String a (String b r')))
      with (match rfind c (String b r') with
            | Some i => Some (S i)
            | None => if Ascii.eqb a c then Some 0%nat else None
            end).
    rewrite (IH Hlast). simpl. now rewrite Nat.sub_0_r.
Qed.

Lemma rfind_lt c s k : rfind c s = Some k -> (k < String.length s)%nat.
Proof.
  intros Hk. destruct (rfind_found c s k Hk) as (a & b & -> & <- & _).
  rewrite length_app. simpl. lia.
Qed.

(** The scan over the leading dots of a file name that ends in another
    character comes to a character that is not a dot. *)
Lemma nondot_before_last u x t :
  last_char u = Some x -> x <> extsep ->
  nondot_before (String.length u) (u ++ t) = true.
Proof.
  intros Hlast Hx. induction u as [|a r IH]; [discriminate|].
  simpl. destruct (Ascii.eqb a extsep) eqn:Ha; [|reflexivity].
  apply Ascii.eqb_eq in Ha as ->. destruct r as [|b r'].
  - simpl in Hlast. now injection Hlast as <-.
  - apply IH. exact Hlast.
Qed.

(** [os.path.splitext] of a name whose file name holds no dot, in whatever
    directory: there is no extension. *)
Lemma os_path_splitext_plain dir file :
  dir = "" \/ last_char dir = Some sep ->
  rfind sep file = None -> rfind extsep file = None ->
  os_path_splitext (dir ++ file) = ((dir ++ file)%string, "").
Proof.
  intros Hdir Hsep Hdot. unfold os_path_splitext.
  rewrite (rfind_app_none extsep dir file Hdot), (rfind_app_none sep dir file Hsep).
  destruct (rfind extsep dir) as [d|] eqn:Hd; [|reflexivity].
  destruct Hdir as [-> | Hlast]; [discriminate|].
  rewrite (rfind_last sep dir Hlast).
  apply rfind_lt in Hd.
  replace (S (String.length dir - 1)) with (String.length dir) by lia.
  apply Nat.leb_gt in Hd. now rewrite Hd.
Qed.

(** [os.path.splitext] of a name that ends in a dot and a text without dot
    or separator, the character before the dot being neither: the extension
    is the dot and that text. *)
Lemma os_path_splitext_dotted stem x e :
  last_char stem = Some x -> x <> extsep -> x <> sep ->
  rfind extsep e = None -> rfind sep e = None ->
  os_path_splitext (stem ++ String extsep e) = (stem, String extsep e).
Proof.
  intros Hlast Hdot Hsep He Hes. unfold os_path_splitext.
  rewrite (rfind_app_found extsep stem e He), take_app, drop_app.
  assert (Htail : rfind sep (String extsep e) = None) by (simpl; now rewrite Hes).
  rewrite (rfind_app_none sep stem _ Htail).
  destruct (rfind sep stem) as [k|] eqn:Hk.
  - destruct (rfind_found sep stem k Hk) as (a & b & -> & <- & Hb).
    rewrite last_char_app_cons in Hlast.
    assert (Hb' : last_char b = Some x).
    { destruct b as [|y b']; [simpl in Hlast; congruence | exact Hlast]. }
    rewrite str_app_assoc.
    change ((String sep b ++ String extsep e)%string)
      with (String sep (b ++ String extsep e)).
    rewrite drop_app_cut, length_app. simpl String.length.
    replace (String.length a + S (String.length b) - S (String.length a))%nat
      with (String.length b) by lia.
    rewrite (nondot_before_last b x _ Hb' Hdot).
    replace (S (String.length a) <=? String.length a + S (String.length b))%nat
      with true by (symmetry; apply Nat.leb_le; lia).
    reflexivity.
  - rewrite Nat.sub_0_r. cbn [drop Nat.leb andb].
    now rewrite (nondot_before_last stem x _ Hlast Hdot).
Qed.

End MorePathFacts.

Section Thumbnail3More.

Variable Image : Type.
Variable mkstemp : string -> result string.
Variable download_to_filename : string -> string -> string -> result unit.

Abbreviation download := (FRT3.download Image mkstemp download_to_filename).

(** X19. The thumbnail never takes the place of the picture: the name it is
    stored under differs from the name of the object. *)
Theorem upload_never_overwrites_source : forall blob_name : string,
  FRT3.new_file_name_of blob_name <> blob_name.
Proof.
  intros blob_name Heq.
  pose proof (new_file_name_split blob_name) as Hsplit. rewrite Heq in Hsplit.
  destruct (os_path_split blob_name) as [d b]. cbn [fst snd] in Hsplit.
  injection Hsplit as Hb. apply (f_equal String.length) in Hb.
  simpl in Hb. lia.
Qed.

(** X20. The name of the thumbnail, for a file name [file] without
    separator: beside a plain name it is the prefixed name; under the root
    it keeps the separators of the root; under a directory it is the
    directory, one separator and the prefixed name, however many separators
    the object had there. *)
Theorem new_file_name_shapes : forall file : string,
  rfind sep file = None ->
  FRT3.new_file_name_of file = ("thumbnail_" ++ file)%string /\
  (forall n,
     FRT3.new_file_name_of (repeat_char sep (S n) ++ file) =
     (repeat_char sep (S n) ++ "thumbnail_" ++ file)%string) /\
  (forall dir x n, last_char dir = Some x -> x <> sep ->
     FRT3.new_file_name_of (dir ++ repeat_char sep (S n) ++ file) =
     (dir ++ "/" ++ "thumbnail_" ++ file)%string).
Proof.
  intros file Hfile.
  pose proof (prefixed_name_has_no_sep file Hfile) as Hpre.
  change FRT3.NEW_FILE_PREFIX with "thumbnail_" in Hpre.
  apply (rfind_none_startswith sep) in Hpre.
  unfold FRT3.new_file_name_of. change FRT3.NEW_FILE_PREFIX with "thumbnail_".
  split; [|split].
  - rewrite (os_path_split_plain file Hfile). unfold os_path_join.
    now rewrite Hpre.
  - intros n. rewrite (os_path_split_root n file Hfile). unfold os_path_join.
    rewrite Hpre. unfold endswith_char.
    now rewrite last_char_repeat, Ascii.eqb_refl, orb_true_r.
  - intros dir x n Hlast Hx.
    rewrite (os_path_split_directory dir x n file Hlast Hx Hfile).
    unfold os_path_join, endswith_char. rewrite Hpre, Hlast.
    apply Ascii.eqb_neq in Hx. rewrite Hx.
    destruct dir; [discriminate | reflexivity].
Qed.

(** What [download] does once the suffix of the temporary file is known. *)
Lemma download_with_suffix bucket blob_name root ext :
  os_path_splitext blob_name = (root, ext) ->
  download bucket blob_name =
  match mkstemp ext with
  | Raise e => (Raise e, [FRT3.call_mkstemp Image ext])
  | Ok temp =>
      match download_to_filename bucket blob_name temp with
      | Raise e =>
          (Raise e, [ FRT3.call_mkstemp Image ext;
                      FRT3.call_download_to_filename Image bucket blob_name temp ])
      | Ok _ =>
          (Ok temp,
           [ FRT3.call_mkstemp Image ext;
             FRT3.call_download_to_filename Image bucket blob_name temp;
             FRT3.printed Image
               ("Blob " ++ blob_name ++ " downloaded to " ++ temp ++ ".")%string ])
      end
  end.
Proof.
  intros Hext. unfold FRT3.download. rewrite Hext.
  unfold FRT3.andthen, FRT3.called, FRT3.print, FRT3.done.
  destruct (mkstemp ext) as [temp|e]; [|reflexivity].
  destruct (download_to_filename bucket blob_name temp) as [[]|e]; reflexivity.
Qed.

(** X21. The temporary file has the extension of the blob.  For a blob
    whose name ends in a dot and a text [e] without dot or separator, the
    character before the dot being neither, [download] asks for a temporary
    file with the suffix [.e], downloads the blob to the file it is given
    and returns its name; for a blob whose file name holds no dot, in
    whatever directory, the suffix is empty. *)
Theorem download_keeps_the_extension : forall (bucket stem : string) x e temp,
  last_char stem = Some x -> x <> extsep -> x <> sep ->
  rfind extsep e = None -> rfind sep e = None ->
  let blob_name := (stem ++ String extsep e)%string in
  mkstemp (String extsep e) = Ok temp ->
  download_to_filename bucket blob_name temp = Ok tt ->
  download bucket blob_name =
  (Ok temp,
   [ FRT3.call_mkstemp Image (String extsep e);
     FRT3.call_download_to_filename Image bucket blob_name temp;
     FRT3.printed Image ("Blob " ++ blob_name ++ " downloaded to " ++ temp ++ ".")%string ]) /\
  (forall dir file,
     dir = "" \/ last_char dir = Some sep ->
     rfind sep file = None -> rfind extsep file = None ->
     hd_error (snd (download bucket (dir ++ file))) = Some (FRT3.call_mkstemp Image "")).
Proof.
  intros bucket stem x e temp Hlast Hdot Hsep He Hes blob_name Htemp Hdown.
  split.
  - rewrite (download_with_suffix bucket blob_name stem (String extsep e)
               (os_path_splitext_dotted stem x e Hlast Hdot Hsep He Hes)).
    now rewrite Htemp, Hdown.
  - intros dir file Hdir Hfs Hfd.
    rewrite (download_with_suffix bucket (dir ++ file) (dir ++ file) ""
               (os_path_splitext_plain dir file Hdir Hfs Hfd)).
    destruct (mkstemp "") as [t|]; [|reflexivity].
    destruct (download_to_filename bucket _ t); reflexivity.
Qed.

End Thumbnail3More.

Section Sizes.

Local Open Scope Z_scope.

(** X22. The target sizes at the edge: for positive width and height, each
    target is at least zero and less than the dimension, twice the target
    is the dimension or one less, and a target is zero exactly for a
    dimension of one. *)
Theorem halved_sizes_bounds :
  forall (Image : Type) (shape0 shape1 : Image -> Z) (img : Image),
  0 < shape1 img -> 0 < shape0 img ->
  let w := fst (FRT3.dsize_of Image shape0 shape1 img) in
  let h := snd (FRT3.dsize_of Image shape0 shape1 img) in
  FRT2.dim_of Image shape0 shape1 img = (w, h) /\
  0 <= w < shape1 img /\ 0 <= h < shape0 img /\
  shape1 img - 1 <= 2 * w <= shape1 img /\
  shape0 img - 1 <= 2 * h <= shape0 img /\
  (w = 0 <-> shape1 img = 1) /\ (h = 0 <-> shape0 img = 1).
Proof.
  intros Image shape0 shape1 img HW HH.
  unfold FRT2.dim_of, FRT3.dsize_of, FRT2.scale_percent. cbn [fst snd].
  rewrite !int_of_percent, !int_of_half by lia.
  pose proof (Z.div_mod (shape1 img) 2 ltac:(lia)) as Hw.
  pose proof (Z.mod_pos_bound (shape1 img) 2 ltac:(lia)) as Hw'.
  pose proof (Z.div_mod (shape0 img) 2 ltac:(lia)) as Hh.
  pose proof (Z.mod_pos_bound (shape0 img) 2 ltac:(lia)) as Hh'.
  repeat split; lia.
Qed.

End Sizes.

Section Thumbnail2More.

Variable Bytes : Type.
Variable Image : Type.
Variable shape0 shape1 : Image -> Z.
Variable download_as_string : string -> string -> Bytes.
Variable imdecode : Bytes -> Image.
Variable cv2_resize : Image -> Z * Z -> Image.
Variable temp_name : string.

Abbreviation reformat_image :=
  (FRT2.reformat_image Bytes Image shape0 shape1 download_as_string imdecode
     cv2_resize temp_name).

(** X24. The file the thumbnail is written to is named by gluing the
    object name to the name of the temporary file.  For an object name with
    a separator in it, and a temporary name that does not end in one, that
    file is not the temporary file nor beside it: its file name is the file
    name of the object, and its directory begins with the whole name of the
    temporary file. *)
Theorem temp_file_of_nested_object :
  forall (event : FRT2.Event) (env : FRT2.Environ) x k,
  last_char temp_name = Some x -> x <> sep ->
  rfind sep (FRT2.name event) = Some k ->
  let temp_file := (temp_name ++ FRT2.name event)%string in
  nth_error (reformat_image event env) 5 =
    Some (FRT2.imwrite Bytes Image temp_file
            (cv2_resize (imdecode (download_as_string (FRT2.bucket event) (FRT2.name event)))
               (FRT2.dim_of Image shape0 shape1
                  (imdecode (download_as_string (FRT2.bucket event) (FRT2.name event)))))) /\
  snd (os_path_split temp_file) = snd (os_path_split (FRT2.name event)) /\
  exists rest, fst (os_path_split temp_file) = (temp_name ++ rest)%string.
Proof.
  intros event env x k Hlast Hx Hname temp_file. subst temp_file.
  split; [reflexivity|].
  unfold os_path_split.
  rewrite (rfind_app_some sep temp_name _ k Hname), Hname.
  replace (S (String.length temp_name + k)) with (String.length temp_name + S k)%nat
    by lia.
  rewrite take_app_more, drop_app_more. cbn [fst snd]. split; [reflexivity|].
  destruct (String.eqb (temp_name ++ take (S k) (FRT2.name event)) "") eqn:He.
  { apply String.eqb_eq in He. destruct temp_name; discriminate. }
  destruct (String.eqb _ (repeat_char sep _)) eqn:Hall.
  { apply String.eqb_eq in Hall. now apply not_a_run with (d := x) in Hall. }
  cbn [negb andb]. rewrite (rstrip_app_keep sep temp_name _ x Hlast Hx). eauto.
Qed.

End Thumbnail2More.

Section ThumbnailMoreExamples.

Lemma new_file_name_shapes_witness :
  FRT3.new_file_name_of "cat.png" = "thumbnail_cat.png" /\
  FRT3.new_file_name_of "a/b//cat.png" = "a/b/thumbnail_cat.png".
Proof.
  destruct (new_file_name_shapes "cat.png" eq_refl) as (Hplain & _ & Hdir).
  split; [exact Hplain|].
  apply (Hdir "a/b" "b"%char 1%nat); [reflexivity | discriminate].
Defined.

Lemma download_keeps_the_extension_witness :
  FRT3.download (Z * Z) FRT3.stub_mkstemp FRT3.stub_transfer "photos" "a/b.c/cat.tar.gz" =
  (Ok "/tmp/tmp1.gz",
   [ FRT3.call_mkstemp (Z * Z) ".gz";
     FRT3.call_download_to_filename (Z * Z) "photos" "a/b.c/cat.tar.gz" "/tmp/tmp1.gz";
     FRT3.printed (Z * Z) "Blob a/b.c/cat.tar.gz downloaded to /tmp/tmp1.gz." ]) /\
  hd_error (snd (FRT3.download (Z * Z) FRT3.stub_mkstemp FRT3.stub_transfer
                   "photos" ("a/b.c/" ++ "cat")))
  = Some (FRT3.call_mkstemp (Z * Z) "").
Proof.
  destruct (download_keeps_the_extension (Z * Z) FRT3.stub_mkstemp FRT3.stub_transfer
              "photos" "a/b.c/cat.tar" "r"%char "gz" "/tmp/tmp1.gz"
              eq_refl ltac:(discriminate) ltac:(discriminate) eq_refl eq_refl
              eq_refl eq_refl) as [Hgz Hplain].
  split; [exact Hgz|].
  apply Hplain; [right; reflexivity | reflexivity | reflexivity].
Defined.

Lemma halved_sizes_bounds_witness :
  fst (FRT3.dsize_of (Z * Z) fst snd (5, 1)%Z) = 0%Z.
Proof.
  destruct (halved_sizes_bounds (Z * Z) fst snd (5, 1)%Z eq_refl eq_refl)
    as (_ & _ & _ & _ & _ & [_ Hone] & _).
  apply Hone. reflexivity.
Defined.

Lemma temp_file_of_nested_object_witness :
  snd (os_path_split ("/tmp/tmpab12" ++ "a/cat.png")) = snd (os_path_split "a/cat.png").
Proof.
  exact (proj1 (proj2
           (temp_file_of_nested_object unit unit (fun _ => 4%Z) (fun _ => 6%Z)
              (fun _ _ => tt) (fun _ => tt) (fun _ _ => tt) "/tmp/tmpab12"
              {| FRT2.bucket := "photos"; FRT2.name := "a/cat.png" |} []
              "2"%char 1%nat eq_refl ltac:(discriminate) eq_refl))).
Defined.

End ThumbnailMoreExamples.
